(** * Item CRUD service: repository and endpoint handlers

    A shallow embedding of the generated project's item resource:
    - [database/models/item.py]   the [items] table and its constraints,
    - [schemas/item.py]           the request schemata,
    - [database/core.py]          the per-request session,
    - [api/v1/items/services.py]  [ItemService], the repository,
    - [api/v1/items/views.py]     [ItemView], the endpoint handlers.

    The SQL engine behind the session (SQLite through SQLAlchemy) is modelled
    by a table of rows, a transaction-local working copy of it and the trace
    of SQL statements the session has issued.  The session is usable or, after
    a failed flush, deactivated; the driver binds signed 64-bit integers
    only. *)

From Stdlib Require Import ZArith List String Bool Lia.
Import ListNotations.
Local Open Scope string_scope.
Local Open Scope list_scope.
Local Open Scope Z_scope.

Set Warnings "-register-all".

(** ** database/models/item.py *)

(** A row of [items].  [name] is [nullable=False], so a stored row always
    carries a string there; [description] is [nullable=True]. *)
Record Item : Type := mkItem {
  id : Z;
  name : string;
  description : option string
}.

Definition Table : Type := list Item.

(** ** schemas/item.py *)

(** [ItemCreate(name: str, description: Optional[str] = None)]. *)
Record ItemCreate : Type := mkItemCreate {
  create_name : string;
  create_description : option string
}.

(** [ItemUpdate(name: Optional[str] = None, description: Optional[str] = None)].
    Pydantic remembers which fields the payload set.  The outer [option] is
    that membership ([None]: unset, the value is the default [None]); the
    inner one is the value that was supplied, which may be [None]. *)
Record ItemUpdate : Type := mkItemUpdate {
  update_name : option (option string);
  update_description : option (option string)
}.

(** A Python [dict] from field names to [Optional[str]], in insertion order. *)
Definition Dict : Type := list (string * option string).

(** [item_data.model_dump()]: every field, in declaration order. *)
Definition model_dump (item_data : ItemCreate) : Dict :=
  [("name", Some (create_name item_data));
   ("description", create_description item_data)].

(** [updates.model_dump(exclude_unset=True)]: only the fields that were set. *)
Definition model_dump_exclude_unset (updates : ItemUpdate) : Dict :=
  (match update_name updates with
   | Some v => [("name", v)]
   | None => []
   end) ++
  (match update_description updates with
   | Some v => [("description", v)]
   | None => []
   end).

(** [key in d]. *)
Definition contains (key : string) (d : Dict) : bool :=
  existsb (fun kv => String.eqb (fst kv) key) d.

(** [d.get(key)], where a missing key and a [None] value both give [None]. *)
Definition get (key : string) (d : Dict) : option string :=
  match find (fun kv => String.eqb (fst kv) key) d with
  | Some (_, v) => v
  | None => None
  end.

(** Truth value of a dict: [not d] holds of the empty dict only. *)
Definition is_empty (d : Dict) : bool :=
  match d with
  | [] => true
  | _ :: _ => false
  end.

(** ** The SQL engine *)

(** A transient [Item] built from keyword arguments: no primary key yet,
    columns that were not given are [NULL]. *)
Record Pending : Type := mkPending {
  pending_name : option string;
  pending_description : option string
}.

Definition Item_init (kwargs : Dict) : Pending :=
  {| pending_name := get "name" kwargs;
     pending_description := get "description" kwargs |}.

(** The statements the service builds. [Select None] is [select(Item)],
    [Select (Some i)] is [select(Item).where(Item.id == i)]; [Update] is
    [update(Item).where(Item.id == i).values(d).returning(Item)] with [d]
    unpacked into keyword arguments; [Delete]
    is [delete(Item).where(Item.id == i)]. *)
Inductive Stmt : Type :=
| Select (where_id : option Z)
| Update (where_id : Z) (values : Dict)
| Delete (where_id : Z).

(** What reaches the database, in order. *)
Inductive Sql : Type :=
| SELECT (where_id : option Z)
| INSERT (row : Pending)
| UPDATE (where_id : Z) (values : Dict)
| DELETE (where_id : Z)
| COMMIT
| ROLLBACK.

Definition is_commit (q : Sql) : bool :=
  match q with
  | COMMIT => true
  | _ => false
  end.

Definition is_write (q : Sql) : bool :=
  match q with
  | INSERT _ | UPDATE _ _ | DELETE _ => true
  | _ => false
  end.

Definition has_id (item_id : Z) (row : Item) : bool := id row =? item_id.

Definition has_name (n : string) (row : Item) : bool := String.eqb (name row) n.

Definition sql_select (where_id : option Z) (t : Table) : list Item :=
  match where_id with
  | None => t
  | Some i => filter (has_id i) t
  end.

(** The rowid of an [INTEGER PRIMARY KEY] column that the insert leaves
    unset: one more than the largest in use, 1 in an empty table. *)
Definition next_rowid (t : Table) : Z :=
  match map id t with
  | [] => 1
  | i :: ids => fold_left Z.max ids i + 1
  end.

(** [INSERT INTO items (name, description) VALUES (?, ?)].  [None] is the
    integrity error of a [NULL] or an already present [name]. *)
Definition sql_insert (p : Pending) (t : Table) : option (Item * Table) :=
  match pending_name p with
  | None => None
  | Some n =>
      if existsb (has_name n) t then None
      else
        let row := {| id := next_rowid t; name := n;
                      description := pending_description p |} in
        Some (row, t ++ [row])
  end.

(** [SET] clause applied to one row.  Only [name] and [description] can be
    keys; [None] is the [NOT NULL] violation on [name]. *)
Definition set_values (values : Dict) (row : Item) : option Item :=
  let set_description (r : Item) : Item :=
    if contains "description" values
    then {| id := id r; name := name r; description := get "description" values |}
    else r in
  if contains "name" values then
    match get "name" values with
    | Some n => Some (set_description {| id := id row; name := n;
                                         description := description row |})
    | None => None
    end
  else Some (set_description row).

Fixpoint update_rows (item_id : Z) (values : Dict) (t : Table) : option Table :=
  match t with
  | [] => Some []
  | row :: rest =>
      match update_rows item_id values rest with
      | None => None
      | Some rest' =>
          if has_id item_id row then
            match set_values values row with
            | Some row' => Some (row' :: rest')
            | None => None
            end
          else Some (row :: rest')
      end
  end.

(** The [UNIQUE] index on [name], checked for the rows the statement wrote:
    with [name] among the assigned columns and some row matched, the new
    name must occur once in the table. *)
Definition name_collides (item_id : Z) (values : Dict) (t' : Table) : bool :=
  match get "name" values with
  | Some n =>
      contains "name" values && existsb (has_id item_id) t' &&
      (1 <? Z.of_nat (List.length (filter (has_name n) t')))
  | None => false
  end.

(** [UPDATE items SET ... WHERE id = ? RETURNING ...]: the new table and the
    returned rows, or [None] for an integrity error, which leaves the table
    as it was. *)
Definition sql_update (item_id : Z) (values : Dict) (t : Table)
  : option (Table * list Item) :=
  match update_rows item_id values t with
  | None => None
  | Some t' =>
      if name_collides item_id values t' then None
      else Some (t', filter (has_id item_id) t')
  end.

(** [DELETE FROM items WHERE id = ?]: the new table and the row count. *)
Definition sql_delete (item_id : Z) (t : Table) : Table * Z :=
  (filter (fun row => negb (has_id item_id row)) t,
   Z.of_nat (List.length (filter (has_id item_id) t))).

(** ** database/core.py: the session *)

(** An [AsyncSession] made by [AsyncSessionLocal] ([autoflush=False],
    [expire_on_commit=False]) together with the database it is bound to:
    [database] is the durable table every session sees, [transaction] the
    working copy of the session's open transaction, [new] the objects added
    and not yet flushed, [calls] the statements handed to the driver so
    far. *)
Record AsyncSession : Type := mkSession {
  database : Table;
  transaction : Table;
  new : list Pending;
  calls : list Sql
}.

(** The session object is in one of two conditions.  After a flush has
    failed its transaction is deactivated: until [rollback()] or [close()]
    every call that needs the transaction raises [PendingRollbackError]. *)
Inductive Session : Type :=
| Usable (data : AsyncSession)
| Deactivated (data : AsyncSession).

Definition data (x : Session) : AsyncSession :=
  match x with
  | Usable s | Deactivated s => s
  end.

Set Warnings "-ambiguous-paths".
Coercion data : Session >-> AsyncSession.
Coercion Usable : AsyncSession >-> Session.

Inductive Exn : Type :=
| IntegrityError
| MultipleResultsFound
| InvalidRequestError
| OverflowError
| PendingRollbackError
| HTTPException (status_code : Z) (detail : string).

Inductive Outcome (A : Type) : Type :=
| Return (a : A)
| Raise (e : Exn).

Arguments Return {A} a.
Arguments Raise {A} e.

(** A coroutine over the session: it completes or raises, and leaves the
    session in a new state. *)
Definition M (A : Type) : Type := Session -> Outcome A * Session.

Definition ret {A : Type} (a : A) : M A := fun s => (Return a, s).

Definition raise {A : Type} (e : Exn) : M A := fun s => (Raise e, s).

Definition bind {A B : Type} (m : M A) (k : A -> M B) : M B :=
  fun s =>
    match m s with
    | (Return a, s') => k a s'
    | (Raise e, s') => (Raise e, s')
    end.

Notation "x <- m ;; k" := (bind m (fun x => k))
  (at level 61, m at next level, right associativity).
Notation "m ;; k" := (bind m (fun _ => k))
  (at level 61, right associativity).

Definition issue (q : Sql) (s : AsyncSession) : AsyncSession :=
  {| database := database s; transaction := transaction s;
     new := new s; calls := calls s ++ [q] |}.

(** A cursor result: the rows (for [SELECT] and [RETURNING]) and the count
    of rows a DML statement matched ([-1] for a [SELECT]). *)
Record Result : Type := mkResult {
  rows : list Item;
  rowcount : Z
}.

(** The integers the driver can bind to a statement: SQLite's signed 64-bit
    [INTEGER]. *)
Definition INT64_MIN : Z := -9223372036854775808.
Definition INT64_MAX : Z := 9223372036854775807.

Definition in_int64 (z : Z) : bool := (INT64_MIN <=? z) && (z <=? INT64_MAX).

(** The statement as the driver receives it, and the id bound to its
    [WHERE] clause, if it has one. *)
Definition sql_of (stmt : Stmt) : Sql :=
  match stmt with
  | Select w => SELECT w
  | Update i values => UPDATE i values
  | Delete i => DELETE i
  end.

Definition bound_id (stmt : Stmt) : option Z :=
  match stmt with
  | Select w => w
  | Update i _ => Some i
  | Delete i => Some i
  end.

Definition binds (stmt : Stmt) : bool :=
  match bound_id stmt with
  | Some i => in_int64 i
  | None => true
  end.

(** [await self.db.execute(stmt)].  A deactivated session refuses the
    call.  The driver raises [OverflowError] when the bound id does not fit
    a signed 64-bit integer, before the store runs anything.  With
    [autoflush=False] the pending objects stay unflushed. *)
Definition execute (stmt : Stmt) : M Result :=
  fun x =>
    match x with
    | Deactivated _ => (Raise PendingRollbackError, x)
    | Usable s =>
        if negb (binds stmt) then (Raise OverflowError, Usable (issue (sql_of stmt) s))
        else
          match stmt with
          | Select w =>
              (Return {| rows := sql_select w (transaction s); rowcount := -1 |},
               Usable (issue (SELECT w) s))
          | Update i values =>
              match sql_update i values (transaction s) with
              | Some (t', returned) =>
                  (Return {| rows := returned;
                             rowcount := Z.of_nat (List.length returned) |},
                   Usable {| database := database s; transaction := t';
                             new := new s; calls := calls s ++ [UPDATE i values] |})
              | None => (Raise IntegrityError, Usable (issue (UPDATE i values) s))
              end
          | Delete i =>
              let (t', n) := sql_delete i (transaction s) in
              (Return {| rows := []; rowcount := n |},
               Usable {| database := database s; transaction := t';
                         new := new s; calls := calls s ++ [DELETE i] |})
          end
    end.

(** [result.scalars().first()]. *)
Definition first (result : Result) : option Item := hd_error (rows result).

(** [result.scalars().all()]. *)
Definition all (result : Result) : list Item := rows result.

(** [result.scalar_one_or_none()]. *)
Definition scalar_one_or_none (result : Result) : M (option Item) :=
  match rows result with
  | [] => ret None
  | [row] => ret (Some row)
  | _ :: _ :: _ => raise MultipleResultsFound
  end.

(** [self.db.add(obj)]: the object joins the pending ones; no transaction
    is needed for that. *)
Definition add (obj : Pending) : M unit :=
  fun x =>
    let added (s : AsyncSession) : AsyncSession :=
      {| database := database s; transaction := transaction s;
         new := new s ++ [obj]; calls := calls s |} in
    (Return tt,
     match x with
     | Usable s => Usable (added s)
     | Deactivated s => Deactivated (added s)
     end).

(** The flush of the pending objects, in the order they were added: the
    table after the inserts and the primary keys given, or [None] at the
    first insert that fails; with it the statements that were issued. *)
Fixpoint flush (objs : list Pending) (t : Table)
  : option (Table * list Z) * list Sql :=
  match objs with
  | [] => (Some (t, []), [])
  | obj :: rest =>
      match sql_insert obj t with
      | None => (None, [INSERT obj])
      | Some (row, t') =>
          let (r, trace) := flush rest t' in
          (match r with
           | Some (t'', pks) => Some (t'', id row :: pks)
           | None => None
           end,
           INSERT obj :: trace)
      end
  end.

(** [await self.db.commit()]: flush, then make the transaction durable.  A
    failing flush rolls the store's transaction back, expunges the pending
    objects and re-raises; the service does not call [rollback()], so the
    session stays deactivated.  The value is the list of primary keys the
    flush wrote into the pending objects. *)
Definition commit : M (list Z) :=
  fun x =>
    match x with
    | Deactivated _ => (Raise PendingRollbackError, x)
    | Usable s =>
        match flush (new s) (transaction s) with
        | (Some (t', pks), trace) =>
            (Return pks,
             Usable {| database := t'; transaction := t'; new := [];
                       calls := calls s ++ trace ++ [COMMIT] |})
        | (None, trace) =>
            (Raise IntegrityError,
             Deactivated {| database := database s; transaction := database s;
                            new := [];
                            calls := calls s ++ trace ++ [ROLLBACK] |})
        end
    end.

(** [await self.db.refresh(obj)] for the object whose primary key is [pk]:
    its attributes are loaded again from its row.  The key is one the store
    assigned at the flush. *)
Definition refresh (pk : Z) : M Item :=
  fun x =>
    match x with
    | Deactivated _ => (Raise PendingRollbackError, x)
    | Usable s =>
        match sql_select (Some pk) (transaction s) with
        | row :: _ => (Return row, Usable (issue (SELECT (Some pk)) s))
        | [] => (Raise InvalidRequestError, Usable (issue (SELECT (Some pk)) s))
        end
    end.

(** [AsyncSessionLocal()]: a session on the database, nothing begun. *)
Definition open_session (db : Table) : AsyncSession :=
  {| database := db; transaction := db; new := []; calls := [] |}.

(** [await session.close()]: what was not committed is rolled back, and
    the session can be used again. *)
Definition close (x : Session) : Session :=
  Usable {| database := database x; transaction := database x; new := [];
            calls := calls x |}.

(** [get_session]: the dependency that scopes one session to one request. *)
Definition get_session {A : Type} (db : Table) (handler : M A)
  : Outcome A * Table :=
  let (r, s) := handler (open_session db) in (r, database (close s)).

(** ** api/v1/items/services.py: ItemService *)

Definition get_item (item_id : Z) : M (option Item) :=
  result <- execute (Select (Some item_id)) ;;
  ret (first result).

Definition get_all_items : M (list Item) :=
  result <- execute (Select None) ;;
  ret (all result).

(** [db_item] is the object added last, so the primary key the flush wrote
    into it is the last of those the commit reports; [refresh] loads the
    object again from the row under that key. *)
Definition create_item (item_data : ItemCreate) : M Item :=
  let db_item := Item_init (model_dump item_data) in
  add db_item ;;
  pks <- commit ;;
  match last (map Some pks) None with
  | Some pk => refresh pk
  | None => raise InvalidRequestError
  end.

Definition update_item (item_id : Z) (updates : ItemUpdate) : M (option Item) :=
  let update_data := model_dump_exclude_unset updates in
  if is_empty update_data then get_item item_id
  else
    result <- execute (Update item_id update_data) ;;
    updated_item <- scalar_one_or_none result ;;
    match updated_item with
    | None => ret None
    | Some item => commit ;; ret (Some item)
    end.

Definition delete_item (item_id : Z) : M bool :=
  result <- execute (Delete item_id) ;;
  if rowcount result =? 0 then ret false
  else commit ;; ret true.

(** ** api/v1/items/views.py: ItemView *)

Inductive Json : Type :=
| JNull
| JInt (z : Z)
| JStr (s : string)
| JArr (l : list Json)
| JObj (fields : list (string * Json)).

Inductive Body : Type :=
| Empty
| JsonBody (j : Json)
| Text (s : string).

Record Response : Type := mkResponse {
  status : Z;
  body : Body
}.

Definition HTTP_200_OK : Z := 200.
Definition HTTP_201_CREATED : Z := 201.
Definition HTTP_204_NO_CONTENT : Z := 204.
Definition HTTP_404_NOT_FOUND : Z := 404.
Definition HTTP_500_INTERNAL_SERVER_ERROR : Z := 500.

(** [response_model=ItemResponse]: [{id, name, description}]. *)
Definition ItemResponse (item : Item) : Json :=
  JObj [("id", JInt (id item));
        ("name", JStr (name item));
        ("description",
         match description item with
         | Some d => JStr d
         | None => JNull
         end)].

Module ItemView.

Definition get_all_items : M (list Item) :=
  items <- get_all_items ;;
  ret items.

Definition get_single_item (item_id : Z) : M Item :=
  item <- get_item item_id ;;
  match item with
  | None => raise (HTTPException HTTP_404_NOT_FOUND "Item not found")
  | Some item => ret item
  end.

Definition create_item (item_data : ItemCreate) : M Item :=
  new_item <- create_item item_data ;;
  ret new_item.

Definition update_item (item_data : ItemUpdate) (item_id : Z) : M Item :=
  updated_item <- update_item item_id item_data ;;
  match updated_item with
  | None => raise (HTTPException HTTP_404_NOT_FOUND "Item not found")
  | Some item => ret item
  end.

Definition delete_item (item_id : Z) : M Response :=
  deleted <- delete_item item_id ;;
  if negb deleted
  then raise (HTTPException HTTP_404_NOT_FOUND "Item not found")
  else ret {| status := HTTP_204_NO_CONTENT; body := Empty |}.

End ItemView.

(** The router's part: a returned value is serialised through the route's
    [response_model] under the route's [status_code]; an [HTTPException]
    becomes its status with [{"detail": ...}]; anything else that escapes
    the handler is a 500. *)
Definition on_raise (e : Exn) : Response :=
  match e with
  | HTTPException sc d =>
      {| status := sc; body := JsonBody (JObj [("detail", JStr d)]) |}
  | _ =>
      {| status := HTTP_500_INTERNAL_SERVER_ERROR;
         body := Text "Internal Server Error" |}
  end.

Definition respond {A : Type} (status_code : Z) (response_model : A -> Json)
    (r : Outcome A) : Response :=
  match r with
  | Return a => {| status := status_code; body := JsonBody (response_model a) |}
  | Raise e => on_raise e
  end.

(** A handler that returns a [Response] object has it sent as it is. *)
Definition respond_direct (r : Outcome Response) : Response :=
  match r with
  | Return resp => resp
  | Raise e => on_raise e
  end.

(** The five routes under [/api/v1/items], each within its own session. *)
Definition GET_items (db : Table) : Response * Table :=
  let (r, db') := get_session db ItemView.get_all_items in
  (respond HTTP_200_OK (fun l => JArr (map ItemResponse l)) r, db').

Definition GET_item (item_id : Z) (db : Table) : Response * Table :=
  let (r, db') := get_session db (ItemView.get_single_item item_id) in
  (respond HTTP_200_OK ItemResponse r, db').

Definition POST_items (item_data : ItemCreate) (db : Table) : Response * Table :=
  let (r, db') := get_session db (ItemView.create_item item_data) in
  (respond HTTP_201_CREATED ItemResponse r, db').

Definition PATCH_item (item_id : Z) (item_data : ItemUpdate) (db : Table)
  : Response * Table :=
  let (r, db') := get_session db (ItemView.update_item item_data item_id) in
  (respond HTTP_200_OK ItemResponse r, db').

Definition DELETE_item (item_id : Z) (db : Table) : Response * Table :=
  let (r, db') := get_session db (ItemView.delete_item item_id) in
  (respond_direct r, db').

(** ** Observations on a session *)

(** What the store holds, apart from the trace. *)
Definition store (s : AsyncSession) : Table * Table * list Pending :=
  (database s, transaction s, new s).

(** The SQL a coroutine issues when run from [s]. *)
Definition issued {A : Type} (m : M A) (s : Session) : list Sql :=
  skipn (List.length (calls s)) (calls (snd (m s))).

(** The session as it is between two service calls of this application:
    nothing uncommitted, nothing pending. *)
Definition idle (s : AsyncSession) : Prop :=
  transaction s = database s /\ new s = [].

(** The primary-key constraint on [id]. *)
Definition pk_unique (t : Table) : Prop := NoDup (map id t).

Definition present (item_id : Z) (t : Table) : bool := existsb (has_id item_id) t.

Definition no_fields : ItemUpdate :=
  {| update_name := None; update_description := None |}.

Definition not_found : Response :=
  {| status := 404;
     body := JsonBody (JObj [("detail", JStr "Item not found")]) |}.

(** The stored item of the instances below. *)
Definition laptop : Item :=
  {| id := 1; name := "Laptop";
     description := Some "Powerful computing device" |}.

Definition mouse : Item :=
  {| id := 2; name := "Mouse"; description := Some "Ergonomic computer mouse" |}.

(** What an [UPDATE ... WHERE id = item_id] with the given assignments may
    do to a row: the id stays, a row with another id stays whole, a column
    that is not assigned stays. *)
Definition row_frame (item_id : Z) (values : Dict) (r r' : Item) : Prop :=
  id r' = id r /\
  (has_id item_id r = false -> r' = r) /\
  (contains "name" values = false -> name r' = name r) /\
  (contains "description" values = false -> description r' = description r).

(** The frame of a partial update, in terms of the fields the payload set. *)
Definition unsupplied_kept (item_id : Z) (updates : ItemUpdate) (r r' : Item)
  : Prop :=
  id r' = id r /\
  (id r <> item_id -> r' = r) /\
  (update_name updates = None -> name r' = name r) /\
  (update_description updates = None -> description r' = description r).

(** The row [create_item] inserts into table [t]. *)
Definition created (item_data : ItemCreate) (t : Table) : Item :=
  {| id := next_rowid t; name := create_name item_data;
     description := create_description item_data |}.

(** The exceptions that come from the session, as opposed to the one a
    handler raises. *)
Definition from_store (e : Exn) : Prop :=
  match e with
  | HTTPException _ _ => False
  | _ => True
  end.

(** The [UNIQUE] constraint on [name]. *)
Definition names_unique (t : Table) : Prop := NoDup (map name t).

(** The row a partial update makes of [r]: each field the payload set, and
    no other, takes the payload's value. *)
Definition apply_update (updates : ItemUpdate) (r : Item) : Item :=
  {| id := id r;
     name := match update_name updates with
             | Some (Some n) => n
             | _ => name r
             end;
     description := match update_description updates with
                    | Some v => v
                    | None => description r
                    end |}.

(** The response to an exception no handler catches. *)
Definition server_error : Response :=
  {| status := 500; body := Text "Internal Server Error" |}.

(** The 200, 201 and 204 responses of the item routes. *)
Definition ok (item : Item) : Response :=
  {| status := 200; body := JsonBody (ItemResponse item) |}.

Definition created_response (item : Item) : Response :=
  {| status := 201; body := JsonBody (ItemResponse item) |}.

Definition no_content : Response := {| status := 204; body := Empty |}.

(** The least integer above the range of the driver. *)
Definition too_large : Z := 9223372036854775808.

(** A session that can be used and holds nothing uncommitted. *)
Definition usable_idle (x : Session) : Prop :=
  exists s : AsyncSession, x = Usable s /\ idle s.

(** * Properties *)

(** ** Lists and tables *)

Lemma skipn_length_app (A : Type) (l d : list A) :
  skipn (List.length l) (l ++ d) = d.
Proof.
  induction l as [|a l IH]; simpl; auto.
Qed.

Lemma hd_error_filter (A : Type) (f : A -> bool) (l : list A) :
  hd_error (filter f l) = find f l.
Proof.
  induction l as [|a l IH]; simpl; auto.
  destruct (f a); simpl; auto.
Qed.

Lemma has_id_true (i : Z) (row : Item) : has_id i row = true <-> id row = i.
Proof. unfold has_id. apply Z.eqb_eq. Qed.

Lemma has_id_false (i : Z) (row : Item) : has_id i row = false <-> id row <> i.
Proof. unfold has_id. apply Z.eqb_neq. Qed.

Lemma present_false_forall (i : Z) (t : Table) :
  present i t = false <-> Forall (fun row => has_id i row = false) t.
Proof.
  unfold present. induction t as [|row t IH]; simpl.
  - split; auto.
  - rewrite orb_false_iff, IH. split.
    + intros [H1 H2]. constructor; assumption.
    + intros H. inversion H; subst. split; assumption.
Qed.

Lemma absent_filter_nil (i : Z) (t : Table) :
  present i t = false -> filter (has_id i) t = [].
Proof.
  rewrite present_false_forall. induction 1 as [|row t Hrow _ IH]; simpl; auto.
  rewrite Hrow. exact IH.
Qed.

Lemma absent_filter_others (i : Z) (t : Table) :
  present i t = false -> filter (fun row => negb (has_id i row)) t = t.
Proof.
  rewrite present_false_forall. induction 1 as [|row t Hrow _ IH]; simpl; auto.
  rewrite Hrow. simpl. f_equal. exact IH.
Qed.

Lemma filter_nil_absent (i : Z) (t : Table) :
  filter (has_id i) t = [] -> present i t = false.
Proof.
  unfold present. induction t as [|row t IH]; simpl; auto.
  destruct (has_id i row); simpl; [discriminate | exact IH].
Qed.

Lemma present_In (i : Z) (t : Table) :
  present i t = true <-> exists row, In row t /\ id row = i.
Proof.
  unfold present. rewrite existsb_exists. split.
  - intros [row [Hin H]]. exists row. split; auto. apply has_id_true, H.
  - intros [row [Hin H]]. exists row. split; auto. apply has_id_true, H.
Qed.

Lemma present_map_id (i : Z) (t : Table) :
  present i t = true <-> In i (map id t).
Proof.
  rewrite present_In, in_map_iff. split.
  - intros [row [Hin H]]. exists row. auto.
  - intros [row [H Hin]]. exists row. auto.
Qed.

(** Under the primary key, a stored row is the one found by its id. *)
Lemma pk_unique_find (t : Table) (row : Item) :
  pk_unique t -> In row t -> find (has_id (id row)) t = Some row.
Proof.
  unfold pk_unique. induction t as [|r t IH]; simpl; intros Hnd Hin.
  - contradiction.
  - inversion Hnd as [|x l Hnotin Hnd']; subst.
    destruct Hin as [-> | Hin].
    + assert (H : has_id (id row) row = true) by (apply has_id_true; reflexivity).
      rewrite H. reflexivity.
    + destruct (has_id (id row) r) eqn:E.
      * apply has_id_true in E. exfalso. apply Hnotin. rewrite E.
        apply in_map. exact Hin.
      * apply IH; assumption.
Qed.

Lemma pk_unique_filter (t : Table) (row : Item) :
  pk_unique t -> In row t -> filter (has_id (id row)) t = [row].
Proof.
  unfold pk_unique. induction t as [|r t IH]; simpl; intros Hnd Hin.
  - contradiction.
  - inversion Hnd as [|x l Hnotin Hnd']; subst.
    destruct Hin as [-> | Hin].
    + assert (H : has_id (id row) row = true) by (apply has_id_true; reflexivity).
      rewrite H. f_equal. apply absent_filter_nil.
      destruct (present (id row) t) eqn:E; auto.
      apply present_map_id in E. contradiction.
    + destruct (has_id (id row) r) eqn:E.
      * apply has_id_true in E. exfalso. apply Hnotin. rewrite E.
        apply in_map. exact Hin.
      * apply IH; assumption.
Qed.

(** ** The reads *)

Lemma get_item_eq (item_id : Z) (s : AsyncSession) :
  get_item item_id s =
  (if in_int64 item_id
   then Return (find (has_id item_id) (transaction s))
   else Raise OverflowError,
   Usable (issue (SELECT (Some item_id)) s)).
Proof.
  unfold get_item, bind, execute, binds, ret, first. simpl.
  destruct (in_int64 item_id); simpl; [|reflexivity].
  rewrite hd_error_filter. reflexivity.
Qed.

Lemma get_item_deactivated (item_id : Z) (s : AsyncSession) :
  get_item item_id (Deactivated s) = (Raise PendingRollbackError, Deactivated s).
Proof. reflexivity. Qed.

Lemma get_all_items_eq (s : AsyncSession) :
  get_all_items s = (Return (transaction s), Usable (issue (SELECT None) s)).
Proof. reflexivity. Qed.

Lemma issued_issue (A : Type) (m : M A) (s : AsyncSession) (a : Outcome A) (q : Sql) :
  m s = (a, Usable (issue q s)) -> issued m s = [q].
Proof.
  intros H. unfold issued. rewrite H. simpl. apply skipn_length_app.
Qed.

(** C1, within the range of the driver: an update that sets no field is the
    lookup [get_item] for every id: same outcome, same session afterwards;
    the store is as it was and the one statement issued is a [SELECT], so
    nothing is written and no constraint is checked.  For an id that fits a
    signed 64-bit integer the result is the row stored under the id, if
    any. *)
Theorem update_item_no_fields_is_get_item (item_id : Z) (s : AsyncSession) :
  update_item item_id no_fields s = get_item item_id s /\
  (in_int64 item_id = true ->
   fst (update_item item_id no_fields s) =
     Return (find (has_id item_id) (transaction s))) /\
  store (snd (update_item item_id no_fields s)) = store s /\
  issued (update_item item_id no_fields) s = [SELECT (Some item_id)] /\
  existsb is_write (issued (update_item item_id no_fields) s) = false.
Proof.
  assert (E : update_item item_id no_fields s = get_item item_id s) by reflexivity.
  assert (I : issued (update_item item_id no_fields) s = [SELECT (Some item_id)]).
  { eapply issued_issue. rewrite E. apply get_item_eq. }
  split; [exact E|]. rewrite I, E, get_item_eq. simpl.
  repeat split. intros H. rewrite H. reflexivity.
Qed.

Lemma update_item_no_fields_is_get_item_witness :
  in_int64 1 = true /\
  fst (update_item 1 no_fields (open_session [laptop])) = Return (Some laptop).
Proof.
  split; [reflexivity|].
  exact (proj1 (proj2 (update_item_no_fields_is_get_item 1 (open_session [laptop])))
           eq_refl).
Defined.

(** C1, as the claim words it, fails outside that range: no item is stored
    under [too_large], yet the update that sets no field does not return
    absent, it raises the driver's [OverflowError]. *)
Lemma update_item_no_fields_too_large :
  find (has_id too_large) (transaction (open_session [laptop])) = None /\
  fst (update_item too_large no_fields (open_session [laptop])) =
    Raise OverflowError.
Proof.
  split; reflexivity.
Qed.

(** C8: [get_all_items] returns the whole table of the session, in table
    order, every row once and none left out; the list route answers 200
    with the serialisation of the whole table. *)
Theorem get_all_items_returns_entire_table (s : AsyncSession) (db : Table) :
  fst (get_all_items s) = Return (transaction s) /\
  fst (get_all_items (open_session db)) = Return db /\
  GET_items db =
    ({| status := 200; body := JsonBody (JArr (map ItemResponse db)) |}, db).
Proof.
  repeat split; reflexivity.
Qed.

(** C10: [get_item] and [get_all_items] issue one [SELECT] and no
    [COMMIT], leave database, transaction and pending objects as they
    were, and a read that follows another read sees what it would have
    seen without it. *)
Theorem reads_leave_store_unchanged (i j : Z) (s : AsyncSession) :
  (store (snd (get_item i s)) = store s /\
   issued (get_item i) s = [SELECT (Some i)]) /\
  (store (snd (get_all_items s)) = store s /\
   issued get_all_items s = [SELECT None]) /\
  fst (get_item j (snd (get_item i s))) = fst (get_item j s) /\
  fst (get_all_items (snd (get_item i s))) = fst (get_all_items s) /\
  fst (get_item j (snd (get_all_items s))) = fst (get_item j s) /\
  fst (get_all_items (snd (get_all_items s))) = fst (get_all_items s).
Proof.
  rewrite ?get_item_eq, ?get_all_items_eq. simpl.
  rewrite ?get_item_eq, ?get_all_items_eq. simpl.
  repeat split.
  - eapply issued_issue. apply get_item_eq.
  - eapply issued_issue. apply get_all_items_eq.
Qed.

(** ** Commit and delete *)

Lemma commit_nothing_pending (s : AsyncSession) :
  new s = [] ->
  commit s =
  (Return [],
   Usable {| database := transaction s; transaction := transaction s; new := [];
             calls := calls s ++ [COMMIT] |}).
Proof.
  intros H. unfold commit. simpl. rewrite H. reflexivity.
Qed.

Lemma present_rowcount (i : Z) (t : Table) :
  (Z.of_nat (List.length (filter (has_id i) t)) =? 0) = negb (present i t).
Proof.
  unfold present. induction t as [|row t IH]; simpl; auto.
  destruct (has_id i row); simpl; auto.
Qed.

Lemma find_after_delete (i : Z) (t : Table) :
  find (has_id i) (filter (fun row => negb (has_id i row)) t) = None.
Proof.
  induction t as [|row t IH]; simpl; auto.
  destruct (has_id i row) eqn:E; simpl; auto.
  rewrite E. exact IH.
Qed.

Lemma delete_item_overflow (i : Z) (s : AsyncSession) :
  in_int64 i = false ->
  delete_item i s = (Raise OverflowError, Usable (issue (DELETE i) s)).
Proof.
  intros F. unfold delete_item, bind, execute, binds. simpl. rewrite F.
  reflexivity.
Qed.

Lemma delete_item_absent (i : Z) (s : AsyncSession) :
  in_int64 i = true ->
  present i (transaction s) = false ->
  delete_item i s = (Return false, Usable (issue (DELETE i) s)).
Proof.
  intros F H. unfold delete_item, bind, execute, binds, sql_delete. simpl.
  rewrite F. simpl.
  rewrite present_rowcount, H. simpl. unfold ret, issue.
  rewrite (absent_filter_others _ _ H). reflexivity.
Qed.

Lemma delete_item_present (i : Z) (s : AsyncSession) :
  in_int64 i = true ->
  new s = [] ->
  present i (transaction s) = true ->
  delete_item i s =
  (Return true,
   Usable {| database := filter (fun row => negb (has_id i row)) (transaction s);
             transaction := filter (fun row => negb (has_id i row)) (transaction s);
             new := [];
             calls := calls s ++ [DELETE i; COMMIT] |}).
Proof.
  intros F Hnew H. unfold delete_item, bind, execute, binds, sql_delete. simpl.
  rewrite F. simpl.
  rewrite present_rowcount, H. simpl.
  rewrite Hnew. simpl. rewrite <- app_assoc. reflexivity.
Qed.

(** C4, within the range of the driver: with nothing pending in the
    session and an id that fits a signed 64-bit integer, [delete_item]
    returns whether a row with the id was stored, and does not raise.  If
    one was, the delete is committed and a following [get_item] finds
    nothing; if none was, the store is as before and only the [DELETE]
    statement was issued. *)
Theorem delete_item_reports_presence (item_id : Z) (s : AsyncSession)
    (Hnew : new s = []) (Hfit : in_int64 item_id = true) :
  fst (delete_item item_id s) = Return (present item_id (transaction s)) /\
  (present item_id (transaction s) = true ->
     fst (get_item item_id (snd (delete_item item_id s))) = Return None /\
     database (snd (delete_item item_id s)) =
       filter (fun row => negb (has_id item_id row)) (transaction s) /\
     present item_id (database (snd (delete_item item_id s))) = false /\
     issued (delete_item item_id) s = [DELETE item_id; COMMIT]) /\
  (present item_id (transaction s) = false ->
     store (snd (delete_item item_id s)) = store s /\
     issued (delete_item item_id) s = [DELETE item_id]).
Proof.
  destruct (present item_id (transaction s)) eqn:E.
  - pose proof (delete_item_present item_id s Hfit Hnew E) as D.
    split; [rewrite D; reflexivity|]. split; [|discriminate].
    intros _. unfold issued. rewrite D. cbn [snd fst].
    rewrite get_item_eq, Hfit. simpl. rewrite find_after_delete.
    repeat split.
    + destruct (present item_id (filter _ (transaction s))) eqn:P; auto.
      apply present_In in P. destruct P as [row [Hin Hid]].
      apply filter_In in Hin. destruct Hin as [_ Hneg].
      apply has_id_true in Hid. rewrite Hid in Hneg. discriminate.
    + apply skipn_length_app.
  - pose proof (delete_item_absent item_id s Hfit E) as D.
    split; [rewrite D; reflexivity|]. split; [discriminate|].
    intros _. split.
    + rewrite D. reflexivity.
    + eapply issued_issue. exact D.
Qed.

Lemma delete_item_reports_presence_witness :
  new (open_session [laptop]) = [] /\
  in_int64 1 = true /\
  fst (delete_item 1 (open_session [laptop])) = Return true /\
  fst (get_item 1 (snd (delete_item 1 (open_session [laptop])))) = Return None.
Proof.
  split; [reflexivity|]. split; [reflexivity|].
  destruct (delete_item_reports_presence 1 (open_session [laptop]) eq_refl eq_refl)
    as [H1 [H2 _]].
  split.
  - exact H1.
  - apply (H2 eq_refl).
Defined.

(** C4, as the claim words it, fails outside that range: no item is stored
    under [too_large], yet [delete_item] does not return false, it raises
    the driver's [OverflowError]. *)
Lemma delete_item_too_large :
  present too_large (transaction (open_session [laptop])) = false /\
  fst (delete_item too_large (open_session [laptop])) = Raise OverflowError.
Proof.
  split; reflexivity.
Qed.

(** ** The partial update *)

Lemma row_frame_refl (i : Z) (values : Dict) (r : Item) : row_frame i values r r.
Proof. unfold row_frame. auto. Qed.

Lemma table_frame_refl (i : Z) (values : Dict) (t : Table) :
  Forall2 (row_frame i values) t t.
Proof.
  induction t; constructor; auto using row_frame_refl.
Qed.

Lemma set_values_frame (values : Dict) (r r' : Item) :
  set_values values r = Some r' ->
  id r' = id r /\
  (contains "name" values = false -> name r' = name r) /\
  (contains "description" values = false -> description r' = description r).
Proof.
  unfold set_values.
  destruct (contains "name" values) eqn:N;
    destruct (contains "description" values) eqn:D;
    try destruct (get "name" values);
    intros H; inversion H; subst; simpl; repeat split; auto; discriminate.
Qed.

Lemma update_rows_frame (i : Z) (values : Dict) (t t' : Table) :
  update_rows i values t = Some t' -> Forall2 (row_frame i values) t t'.
Proof.
  revert t'. induction t as [|r t IH]; simpl; intros t' H.
  - inversion H. constructor.
  - destruct (update_rows i values t) as [rest'|]; [|discriminate].
    destruct (has_id i r) eqn:E.
    + destruct (set_values values r) as [r'|] eqn:S; [|discriminate].
      inversion H; subst. constructor; [|apply IH; reflexivity].
      destruct (set_values_frame values r r' S) as [H1 [H2 H3]].
      unfold row_frame. rewrite E. repeat split; auto. discriminate.
    + inversion H; subst. constructor; [|apply IH; reflexivity].
      apply row_frame_refl.
Qed.

Lemma table_frame_ids (i : Z) (values : Dict) (t t' : Table) :
  Forall2 (row_frame i values) t t' -> map id t' = map id t.
Proof.
  induction 1 as [|r r' t t' [H _] _ IH]; simpl; auto.
  rewrite H, IH. reflexivity.
Qed.

Lemma table_frame_present (i : Z) (values : Dict) (t t' : Table) :
  Forall2 (row_frame i values) t t' -> present i t' = present i t.
Proof.
  unfold present. induction 1 as [|r r' t t' [H _] _ IH]; simpl; auto.
  unfold has_id at 1 3. rewrite H, IH. reflexivity.
Qed.

Lemma table_frame_absent (i : Z) (values : Dict) (t t' : Table) :
  Forall2 (row_frame i values) t t' -> present i t = false -> t' = t.
Proof.
  unfold present. induction 1 as [|r r' t t' [_ [H _]] _ IH]; simpl; auto.
  intros P. apply orb_false_iff in P. destruct P as [P1 P2].
  rewrite (H P1), (IH P2). reflexivity.
Qed.

Lemma update_rows_absent (i : Z) (values : Dict) (t : Table) :
  present i t = false -> update_rows i values t = Some t.
Proof.
  unfold present. induction t as [|r t IH]; simpl; auto.
  intros P. apply orb_false_iff in P. destruct P as [P1 P2].
  rewrite (IH P2), P1. reflexivity.
Qed.

Lemma sql_update_absent (i : Z) (values : Dict) (t : Table) :
  present i t = false -> sql_update i values t = Some (t, []).
Proof.
  intros P. unfold sql_update. rewrite (update_rows_absent i values t P).
  unfold name_collides. fold (present i t). rewrite P.
  rewrite andb_false_r. simpl.
  rewrite (absent_filter_nil _ _ P).
  destruct (get "name" values); reflexivity.
Qed.

Lemma sql_update_frame (i : Z) (values : Dict) (t t' : Table) (returned : list Item) :
  sql_update i values t = Some (t', returned) ->
  Forall2 (row_frame i values) t t' /\ returned = filter (has_id i) t'.
Proof.
  unfold sql_update. destruct (update_rows i values t) as [u|] eqn:U; [|discriminate].
  destruct (name_collides i values u); [discriminate|].
  intros H. inversion H; subst. split; auto using update_rows_frame.
Qed.

(** Under the primary key a [WHERE id = ?] matches at most one row. *)
Lemma pk_unique_one_match (i : Z) (t : Table) (r1 r2 : Item) (rest : list Item) :
  pk_unique t -> filter (has_id i) t <> r1 :: r2 :: rest.
Proof.
  unfold pk_unique. intros Hnd H.
  assert (In r1 t /\ id r1 = i) as [In1 Id1].
  { rewrite <- has_id_true, <- filter_In, H. simpl. auto. }
  rewrite <- Id1 in H. rewrite (pk_unique_filter t r1 Hnd In1) in H. discriminate.
Qed.

Lemma dump_name (updates : ItemUpdate) :
  update_name updates = None ->
  contains "name" (model_dump_exclude_unset updates) = false.
Proof.
  unfold model_dump_exclude_unset. intros ->.
  destruct (update_description updates); reflexivity.
Qed.

Lemma dump_description (updates : ItemUpdate) :
  update_description updates = None ->
  contains "description" (model_dump_exclude_unset updates) = false.
Proof.
  unfold model_dump_exclude_unset. intros ->.
  destruct (update_name updates); reflexivity.
Qed.

Lemma update_item_overflow (i : Z) (updates : ItemUpdate) (s : AsyncSession) :
  in_int64 i = false ->
  is_empty (model_dump_exclude_unset updates) = false ->
  update_item i updates s =
  (Raise OverflowError,
   Usable (issue (UPDATE i (model_dump_exclude_unset updates)) s)).
Proof.
  intros F Hne. unfold update_item. rewrite Hne.
  unfold bind, execute, binds. simpl. rewrite F. reflexivity.
Qed.

(** The four ways [update_item] ends when at least one field is set,
    nothing is pending and the id fits the driver. *)
Lemma update_item_cases (i : Z) (updates : ItemUpdate) (s : AsyncSession) :
  in_int64 i = true ->
  new s = [] ->
  is_empty (model_dump_exclude_unset updates) = false ->
  let values := model_dump_exclude_unset updates in
  (sql_update i values (transaction s) = None /\
   update_item i updates s =
     (Raise IntegrityError, Usable (issue (UPDATE i values) s))) \/
  (exists t', sql_update i values (transaction s) = Some (t', []) /\
   update_item i updates s =
     (Return None,
      Usable {| database := database s; transaction := t'; new := new s;
                calls := calls s ++ [UPDATE i values] |})) \/
  (exists t' row, sql_update i values (transaction s) = Some (t', [row]) /\
   update_item i updates s =
     (Return (Some row),
      Usable {| database := t'; transaction := t'; new := [];
                calls := calls s ++ [UPDATE i values; COMMIT] |})) \/
  (exists t' r1 r2 rest,
   sql_update i values (transaction s) = Some (t', r1 :: r2 :: rest) /\
   update_item i updates s =
     (Raise MultipleResultsFound,
      Usable {| database := database s; transaction := t'; new := new s;
                calls := calls s ++ [UPDATE i values] |})).
Proof.
  intros F Hnew Hne values. unfold update_item. rewrite Hne. fold values.
  unfold bind, execute, binds. simpl. rewrite F. simpl.
  destruct (sql_update i values (transaction s)) as [[t' returned]|] eqn:U.
  - right. destruct returned as [|r1 [|r2 rest]]; simpl.
    + left. exists t'. auto.
    + right. left. exists t', r1. split; auto.
      rewrite Hnew. simpl. rewrite <- app_assoc. reflexivity.
    + right. right. exists t', r1, r2, rest. auto.
  - left. auto.
Qed.

Lemma update_item_no_data (i : Z) (updates : ItemUpdate) (x : Session) :
  is_empty (model_dump_exclude_unset updates) = true ->
  update_item i updates x = get_item i x.
Proof.
  intros H. unfold update_item. rewrite H. reflexivity.
Qed.

Lemma update_item_absent (i : Z) (updates : ItemUpdate) (s : AsyncSession) :
  in_int64 i = true ->
  is_empty (model_dump_exclude_unset updates) = false ->
  present i (transaction s) = false ->
  update_item i updates s =
  (Return None,
   Usable (issue (UPDATE i (model_dump_exclude_unset updates)) s)).
Proof.
  intros F Hne P. unfold update_item. rewrite Hne.
  unfold bind, execute, binds. simpl. rewrite F. simpl.
  rewrite (sql_update_absent i _ _ P). reflexivity.
Qed.

(** Whatever way [update_item] ends, the working table is related to the
    one before by [row_frame], and the durable table is either untouched or
    the working table. *)
Lemma update_item_frame (i : Z) (updates : ItemUpdate) (s : AsyncSession) :
  new s = [] ->
  Forall2 (row_frame i (model_dump_exclude_unset updates))
    (transaction s) (transaction (snd (update_item i updates s))) /\
  (database (snd (update_item i updates s)) = database s \/
   database (snd (update_item i updates s)) =
     transaction (snd (update_item i updates s))).
Proof.
  intros Hnew.
  destruct (is_empty (model_dump_exclude_unset updates)) eqn:Hne.
  - rewrite (update_item_no_data i updates s Hne), get_item_eq. simpl.
    split; [apply table_frame_refl | left; reflexivity].
  - destruct (in_int64 i) eqn:F.
    2:{ rewrite (update_item_overflow i updates s F Hne). simpl.
        split; [apply table_frame_refl | left; reflexivity]. }
    destruct (update_item_cases i updates s F Hnew Hne)
      as [[_ ->] | [[t' [U ->]] | [[t' [row [U ->]]] | [t' [r1 [r2 [rest [U ->]]]]]]]];
      simpl.
    + split; [apply table_frame_refl | left; reflexivity].
    + apply sql_update_frame in U. destruct U as [F' _]. auto.
    + apply sql_update_frame in U. destruct U as [F' _]. auto.
    + apply sql_update_frame in U. destruct U as [F' _]. auto.
Qed.

Lemma row_frame_unsupplied (i : Z) (updates : ItemUpdate) (r r' : Item) :
  row_frame i (model_dump_exclude_unset updates) r r' ->
  unsupplied_kept i updates r r'.
Proof.
  intros [H1 [H2 [H3 H4]]]. unfold unsupplied_kept. repeat split; auto.
  - intros N. apply H2. apply has_id_false. exact N.
  - intros N. apply H3. apply dump_name. exact N.
  - intros N. apply H4. apply dump_description. exact N.
Qed.

Lemma view_update_item_state (i : Z) (updates : ItemUpdate) (x : Session) :
  snd (ItemView.update_item updates i x) = snd (update_item i updates x).
Proof.
  unfold ItemView.update_item, bind.
  destruct (update_item i updates x) as [[[item|]|e] s']; reflexivity.
Qed.

(** C7: a partial update, run with nothing pending, relates every stored
    row to the row at its place afterwards: the id is the same, a row with
    another id is the same row, and a field the payload did not set keeps
    its value.  The same holds of the durable table across a PATCH
    request. *)
Theorem update_item_keeps_unsupplied (item_id : Z) (updates : ItemUpdate)
    (s : AsyncSession) (Hnew : new s = []) :
  Forall2 (unsupplied_kept item_id updates)
    (transaction s) (transaction (snd (update_item item_id updates s))) /\
  Forall2 (unsupplied_kept item_id updates)
    (database s) (snd (PATCH_item item_id updates (database s))).
Proof.
  split.
  - destruct (update_item_frame item_id updates s Hnew) as [F _].
    revert F. apply Forall2_impl. apply row_frame_unsupplied.
  - unfold PATCH_item, get_session.
    destruct (ItemView.update_item updates item_id (open_session (database s)))
      as [r s'] eqn:V.
    simpl.
    assert (S' : s' = snd (update_item item_id updates (open_session (database s)))).
    { rewrite <- view_update_item_state, V. reflexivity. }
    destruct (update_item_frame item_id updates (open_session (database s)) eq_refl)
      as [F [D | D]]; rewrite <- S' in *; simpl in *.
    + rewrite D. clear.
      induction (database s); constructor; auto.
      apply row_frame_unsupplied, row_frame_refl.
    + rewrite D. revert F. apply Forall2_impl. apply row_frame_unsupplied.
Qed.

Lemma update_item_keeps_unsupplied_witness :
  new (open_session [laptop]) = [] /\
  Forall2 (unsupplied_kept 1 {| update_name := None;
                                update_description := Some (Some "Updated") |})
    [laptop]
    [{| id := 1; name := "Laptop"; description := Some "Updated" |}].
Proof.
  split; [reflexivity|].
  exact (proj1 (update_item_keeps_unsupplied 1
                  {| update_name := None;
                     update_description := Some (Some "Updated") |}
                  (open_session [laptop]) eq_refl)).
Defined.

(** ** Create *)

Lemma fold_left_max_bounds (l : list Z) (a : Z) :
  a <= fold_left Z.max l a /\ forall x, In x l -> x <= fold_left Z.max l a.
Proof.
  revert a. induction l as [|y l IH]; simpl; intros a.
  - split; [lia | contradiction].
  - destruct (IH (Z.max a y)) as [H1 H2]. split; [lia|].
    intros x [-> | Hin]; [lia | auto].
Qed.

Lemma next_rowid_above (t : Table) (row : Item) :
  In row t -> id row < next_rowid t.
Proof.
  unfold next_rowid. intros Hin. apply (in_map id) in Hin.
  destruct (map id t) as [|i ids]; [contradiction|].
  destruct (fold_left_max_bounds ids i) as [H1 H2].
  destruct Hin as [<- | Hin]; [lia|]. specialize (H2 _ Hin). lia.
Qed.

(** The key an insert assigns is not in use in the table. *)
Lemma next_rowid_fresh (t : Table) : present (next_rowid t) t = false.
Proof.
  destruct (present (next_rowid t) t) eqn:P; auto.
  apply present_In in P. destruct P as [row [Hin Hid]].
  apply next_rowid_above in Hin. lia.
Qed.

Lemma select_created (item_data : ItemCreate) (t : Table) :
  filter (has_id (next_rowid t)) (t ++ [created item_data t]) =
  [created item_data t].
Proof.
  rewrite filter_app, (absent_filter_nil _ _ (next_rowid_fresh t)). simpl.
  unfold has_id. simpl. rewrite Z.eqb_refl. reflexivity.
Qed.

Lemma create_item_fresh_name (item_data : ItemCreate) (s : AsyncSession) :
  new s = [] ->
  existsb (has_name (create_name item_data)) (transaction s) = false ->
  let row := created item_data (transaction s) in
  create_item item_data s =
  (Return row,
   Usable {| database := transaction s ++ [row];
             transaction := transaction s ++ [row];
             new := [];
             calls := calls s ++ [INSERT (Item_init (model_dump item_data)); COMMIT;
                                  SELECT (Some (id row))] |}).
Proof.
  intros Hnew Hname row.
  unfold create_item, bind, add, commit. simpl. rewrite Hnew. simpl.
  unfold sql_insert. simpl. rewrite Hname. simpl.
  unfold refresh. simpl.
  change (get "description" (model_dump item_data))
    with (create_description item_data).
  fold (created item_data (transaction s)).
  rewrite select_created. unfold issue. simpl.
  rewrite <- app_assoc. reflexivity.
Qed.

(** A create under a name that is taken: the flush fails, the store's
    transaction is rolled back, and the session is left deactivated. *)
Lemma create_item_taken_name (item_data : ItemCreate) (s : AsyncSession) :
  new s = [] ->
  existsb (has_name (create_name item_data)) (transaction s) = true ->
  create_item item_data s =
  (Raise IntegrityError,
   Deactivated
     {| database := database s; transaction := database s; new := [];
        calls := calls s ++ [INSERT (Item_init (model_dump item_data)); ROLLBACK] |}).
Proof.
  intros Hnew Hname.
  unfold create_item, bind, add, commit. simpl. rewrite Hnew. simpl.
  unfold sql_insert. simpl. rewrite Hname. reflexivity.
Qed.

(** C3, as the code has it: with nothing pending, the name not taken and
    the next rowid within the range of the driver, [create_item] returns the
    item with the given name and description under the next rowid; that id
    is borne by no row of the table when the call is made; the row is
    committed, and a following [get_item] on the id returns the item. *)
Theorem create_item_then_get_item (item_data : ItemCreate) (s : AsyncSession)
    (Hnew : new s = [])
    (Hname : existsb (has_name (create_name item_data)) (transaction s) = false)
    (Hfit : in_int64 (next_rowid (transaction s)) = true) :
  exists item : Item,
    fst (create_item item_data s) = Return item /\
    name item = create_name item_data /\
    description item = create_description item_data /\
    ~ In (id item) (map id (transaction s)) /\
    database (snd (create_item item_data s)) = transaction s ++ [item] /\
    fst (get_item (id item) (snd (create_item item_data s))) = Return (Some item).
Proof.
  exists (created item_data (transaction s)).
  rewrite (create_item_fresh_name item_data s Hnew Hname). cbn [fst snd].
  rewrite get_item_eq. simpl. rewrite Hfit.
  repeat split.
  - rewrite <- present_map_id, next_rowid_fresh. discriminate.
  - rewrite <- hd_error_filter.
    change (next_rowid (transaction s)) with (id (created item_data (transaction s))).
    simpl id. rewrite select_created. reflexivity.
Qed.

Lemma create_item_then_get_item_witness :
  new (open_session [laptop]) = [] /\
  existsb (has_name "Mouse") (transaction (open_session [laptop])) = false /\
  in_int64 (next_rowid (transaction (open_session [laptop]))) = true /\
  exists item : Item,
    fst (create_item {| create_name := "Mouse"; create_description := None |}
           (open_session [laptop])) = Return item /\
    ~ In (id item) [1].
Proof.
  split; [reflexivity|]. split; [reflexivity|]. split; [reflexivity|].
  destruct (create_item_then_get_item
              {| create_name := "Mouse"; create_description := None |}
              (open_session [laptop]) eq_refl eq_refl eq_refl)
    as [item [H1 [_ [_ [H2 _]]]]].
  exists item. split; [exact H1 | exact H2].
Defined.

(** C3, as the claim words it, fails: the key is a rowid, and the rowid of
    a deleted last row is assigned again.  On an empty store, create gives
    id 1; after that item is deleted, the next create gives id 1 again, an
    id that was in use before. *)
Lemma rowid_assigned_again :
  let first_data := {| create_name := "Laptop"; create_description := None |} in
  let second_data := {| create_name := "Mouse"; create_description := None |} in
  let s1 := snd (create_item first_data (open_session [])) in
  let s2 := snd (delete_item 1 s1) in
  fst (create_item first_data (open_session [])) =
    Return {| id := 1; name := "Laptop"; description := None |} /\
  fst (delete_item 1 s1) = Return true /\
  fst (create_item second_data s2) =
    Return {| id := 1; name := "Mouse"; description := None |}.
Proof.
  repeat split.
Qed.

(** C2: in an idle session whose table obeys the primary key, creating an
    item under the name of a stored item raises [IntegrityError]: the insert
    is rolled back, no commit is issued and the store is as before.  The
    session itself is left deactivated and refuses further calls; once it is
    closed, or in a new session on the database, the stored item is still
    what [get_item] returns for its id. *)
Theorem create_item_duplicate_name (first_item : Item)
    (description' : option string) (s : AsyncSession)
    (Hidle : idle s) (Hpk : pk_unique (transaction s))
    (Hin : In first_item (transaction s))
    (Hfit : in_int64 (id first_item) = true) :
  let item_data := {| create_name := name first_item;
                      create_description := description' |} in
  let s' := snd (create_item item_data s) in
  fst (create_item item_data s) = Raise IntegrityError /\
  store s' = store s /\
  issued (create_item item_data) s =
    [INSERT (Item_init (model_dump item_data)); ROLLBACK] /\
  fst (get_item (id first_item) s') = Raise PendingRollbackError /\
  fst (get_item (id first_item) (close s')) = Return (Some first_item) /\
  fst (get_item (id first_item) (open_session (database s'))) =
    Return (Some first_item).
Proof.
  intros item_data s'. destruct Hidle as [Htx Hnew].
  assert (Hname : existsb (has_name (create_name item_data)) (transaction s) = true).
  { apply existsb_exists. exists first_item. split; [exact Hin|].
    unfold has_name. simpl. apply String.eqb_refl. }
  unfold issued, s'.
  rewrite (create_item_taken_name item_data s Hnew Hname). cbn [fst snd].
  unfold close, open_session. rewrite get_item_deactivated, !get_item_eq, Hfit.
  simpl. rewrite <- Htx, (pk_unique_find _ _ Hpk Hin).
  repeat split.
  - unfold store. simpl. rewrite Hnew, Htx. reflexivity.
  - apply skipn_length_app.
Qed.

Lemma create_item_duplicate_name_witness :
  idle (open_session [laptop]) /\
  pk_unique (transaction (open_session [laptop])) /\
  In laptop (transaction (open_session [laptop])) /\
  in_int64 (id laptop) = true /\
  fst (create_item {| create_name := "Laptop"; create_description := None |}
         (open_session [laptop])) = Raise IntegrityError.
Proof.
  assert (I : idle (open_session [laptop])) by (split; reflexivity).
  assert (P : pk_unique (transaction (open_session [laptop]))).
  { unfold pk_unique. simpl. constructor; [simpl; tauto | constructor]. }
  assert (M : In laptop (transaction (open_session [laptop]))) by (simpl; auto).
  split; [exact I|]. split; [exact P|]. split; [exact M|]. split; [reflexivity|].
  exact (proj1 (create_item_duplicate_name laptop None
                  (open_session [laptop]) I P M eq_refl)).
Defined.

(** ** Calls that do not commit *)

Lemma issued_after (A : Type) (m : M A) (s : AsyncSession) (a : Outcome A)
    (x' : Session) (d : list Sql) :
  m s = (a, x') -> calls x' = calls s ++ d -> issued m s = d.
Proof.
  intros H C. unfold issued. rewrite H. simpl snd. rewrite C.
  apply skipn_length_app.
Qed.

Lemma update_item_uncommitted (i : Z) (updates : ItemUpdate) (s : AsyncSession) :
  new s = [] -> pk_unique (transaction s) ->
  existsb is_commit (issued (update_item i updates) s) = false ->
  store (snd (update_item i updates s)) = store s.
Proof.
  intros Hnew Hpk.
  destruct (is_empty (model_dump_exclude_unset updates)) eqn:Hne.
  - rewrite (update_item_no_data i updates s Hne), get_item_eq. reflexivity.
  - destruct (in_int64 i) eqn:F.
    2:{ rewrite (update_item_overflow i updates s F Hne). reflexivity. }
    destruct (update_item_cases i updates s F Hnew Hne)
      as [[_ E] | [[t' [U E]] | [[t' [row [U E]]] | [t' [r1 [r2 [rest [U E]]]]]]]].
    + rewrite E. reflexivity.
    + rewrite E. intros _. simpl.
      apply sql_update_frame in U. destruct U as [Fr R].
      symmetry in R. apply filter_nil_absent in R.
      rewrite (table_frame_present _ _ _ _ Fr) in R.
      rewrite (table_frame_absent _ _ _ _ Fr R). reflexivity.
    + rewrite (issued_after _ _ _ _ _ _ E eq_refl). simpl. discriminate.
    + exfalso. apply sql_update_frame in U. destruct U as [Fr R].
      symmetry in R. revert R. apply pk_unique_one_match.
      unfold pk_unique. rewrite (table_frame_ids _ _ _ _ Fr). exact Hpk.
Qed.

Lemma delete_item_uncommitted (i : Z) (s : AsyncSession) :
  new s = [] ->
  existsb is_commit (issued (delete_item i) s) = false ->
  store (snd (delete_item i s)) = store s.
Proof.
  intros Hnew. destruct (in_int64 i) eqn:F.
  2:{ rewrite (delete_item_overflow i s F). reflexivity. }
  destruct (present i (transaction s)) eqn:P.
  - pose proof (delete_item_present i s F Hnew P) as E.
    rewrite (issued_after _ _ _ _ _ _ E eq_refl). simpl. discriminate.
  - rewrite (delete_item_absent i s F P). reflexivity.
Qed.

Lemma create_item_uncommitted (item_data : ItemCreate) (s : AsyncSession) :
  idle s ->
  existsb is_commit (issued (create_item item_data) s) = false ->
  store (snd (create_item item_data s)) = store s.
Proof.
  intros [Htx Hnew].
  destruct (existsb (has_name (create_name item_data)) (transaction s)) eqn:N.
  - rewrite (create_item_taken_name item_data s Hnew N). intros _.
    unfold store. simpl. rewrite Htx, Hnew. reflexivity.
  - pose proof (create_item_fresh_name item_data s Hnew N) as E. simpl in E.
    rewrite (issued_after _ _ _ _ _ _ E eq_refl). simpl. discriminate.
Qed.

(** C9, within the range of the driver: from an idle session over a table
    that obeys the primary key, a create, update or delete that issues no
    [COMMIT] leaves database, transaction and pending objects as they were.
    In particular, for an id that fits a signed 64-bit integer and is not
    stored, an update that sets some field returns [None] having issued only
    the [UPDATE], and a delete returns [False] having issued only the
    [DELETE]. *)
Theorem uncommitted_calls_leave_store (s : AsyncSession)
    (Hidle : idle s) (Hpk : pk_unique (transaction s)) :
  (forall item_id updates,
     in_int64 item_id = true ->
     is_empty (model_dump_exclude_unset updates) = false ->
     present item_id (transaction s) = false ->
     update_item item_id updates s =
       (Return None,
        Usable (issue (UPDATE item_id (model_dump_exclude_unset updates)) s))) /\
  (forall item_id,
     in_int64 item_id = true ->
     present item_id (transaction s) = false ->
     delete_item item_id s = (Return false, Usable (issue (DELETE item_id) s))) /\
  (forall item_data,
     existsb is_commit (issued (create_item item_data) s) = false ->
     store (snd (create_item item_data s)) = store s) /\
  (forall item_id updates,
     existsb is_commit (issued (update_item item_id updates) s) = false ->
     store (snd (update_item item_id updates s)) = store s) /\
  (forall item_id,
     existsb is_commit (issued (delete_item item_id) s) = false ->
     store (snd (delete_item item_id s)) = store s).
Proof.
  pose proof Hidle as [_ Hnew].
  split; [|split; [|split; [|split]]].
  - intros i u. apply update_item_absent.
  - intros i. apply delete_item_absent.
  - intros d. apply create_item_uncommitted. exact Hidle.
  - intros i u. apply update_item_uncommitted; assumption.
  - intros i. apply delete_item_uncommitted. exact Hnew.
Qed.

Lemma uncommitted_calls_leave_store_witness :
  idle (open_session [laptop]) /\
  pk_unique (transaction (open_session [laptop])) /\
  update_item 2 {| update_name := Some (Some "Mouse"); update_description := None |}
    (open_session [laptop]) =
    (Return None,
     Usable (issue (UPDATE 2 [("name", Some "Mouse")]) (open_session [laptop]))) /\
  delete_item 2 (open_session [laptop]) =
    (Return false, Usable (issue (DELETE 2) (open_session [laptop]))).
Proof.
  assert (I : idle (open_session [laptop])) by (split; reflexivity).
  assert (P : pk_unique (transaction (open_session [laptop]))).
  { unfold pk_unique. simpl. constructor; [simpl; tauto | constructor]. }
  split; [exact I|]. split; [exact P|].
  destruct (uncommitted_calls_leave_store (open_session [laptop]) I P)
    as [U [D _]].
  split.
  - exact (U 2 {| update_name := Some (Some "Mouse"); update_description := None |}
             eq_refl eq_refl eq_refl).
  - exact (D 2 eq_refl eq_refl).
Defined.

(** C9, as the claim words it, fails outside that range: no item is stored
    under [too_large], yet an update that sets a field does not return
    absent and a delete does not return false there: both raise the driver's
    [OverflowError] (and, committing nothing, leave the store as it was). *)
Lemma uncommitted_calls_too_large :
  let s := open_session [laptop] in
  let updates := {| update_name := Some (Some "Mouse");
                    update_description := None |} in
  present too_large (transaction s) = false /\
  fst (update_item too_large updates s) = Raise OverflowError /\
  fst (delete_item too_large s) = Raise OverflowError /\
  store (snd (update_item too_large updates s)) = store s /\
  store (snd (delete_item too_large s)) = store s.
Proof.
  repeat split.
Qed.

(** ** Updates that write *)

Lemma set_values_apply (updates : ItemUpdate) (r : Item) :
  update_name updates <> Some None ->
  set_values (model_dump_exclude_unset updates) r = Some (apply_update updates r).
Proof.
  destruct updates as [[[n|]|] [v|]]; destruct r; intros H;
    try reflexivity; contradiction H; reflexivity.
Qed.

Lemma update_rows_apply (i : Z) (updates : ItemUpdate) (t : Table) :
  update_name updates <> Some None ->
  update_rows i (model_dump_exclude_unset updates) t =
  Some (map (fun r => if has_id i r then apply_update updates r else r) t).
Proof.
  intros H. induction t as [|r t IH]; simpl; auto.
  rewrite IH. destruct (has_id i r); [|reflexivity].
  rewrite (set_values_apply updates r H). reflexivity.
Qed.

Lemma get_name_dump (updates : ItemUpdate) (n : string) :
  get "name" (model_dump_exclude_unset updates) = Some n ->
  update_name updates = Some (Some n).
Proof.
  destruct updates as [[[m|]|] [v|]]; simpl; intros H;
    try discriminate; inversion H; reflexivity.
Qed.

Lemma filter_through (A : Type) (p q : A -> bool) (l : list A) :
  (forall x, In x l -> p x = true -> q x = true) ->
  filter p l = filter p (filter q l).
Proof.
  induction l as [|a l IH]; simpl; intros H; auto.
  destruct (p a) eqn:P.
  - rewrite (H a (or_introl eq_refl) P). simpl. rewrite P. f_equal.
    apply IH. intros x Hin. apply H. right. exact Hin.
  - destruct (q a); simpl; [rewrite P|];
      apply IH; intros x Hin; apply H; right; exact Hin.
Qed.

Lemma filter_split_length (A : Type) (p q : A -> bool) (l : list A) :
  List.length (filter p l) =
  (List.length (filter (fun x => p x && q x) l) +
   List.length (filter (fun x => p x && negb (q x)) l))%nat.
Proof.
  induction l as [|a l IH]; simpl; auto.
  destruct (p a), (q a); simpl; lia.
Qed.

Lemma filter_inhabited (A : Type) (f : A -> bool) (l : list A) (x : A) :
  In x l -> f x = true -> (1 <= List.length (filter f l))%nat.
Proof.
  intros Hin Hf. assert (H : In x (filter f l)) by (apply filter_In; auto).
  destruct (filter f l); [contradiction | simpl; lia].
Qed.

(** The table after the update of a stored row, under the primary key. *)
Lemma updated_table (updates : ItemUpdate) (t : Table) (row : Item) :
  pk_unique t -> In row t ->
  let t' := map (fun r => if has_id (id row) r then apply_update updates r else r) t in
  In (apply_update updates row) t' /\ pk_unique t' /\
  filter (has_id (id row)) t' = [apply_update updates row].
Proof.
  intros Hpk Hin t'.
  set (f := fun r => if has_id (id row) r then apply_update updates r else r) in *.
  assert (Hrow : f row = apply_update updates row).
  { unfold f. replace (has_id (id row) row) with true; auto.
    symmetry. apply has_id_true. reflexivity. }
  assert (Hin' : In (apply_update updates row) t').
  { rewrite <- Hrow. apply in_map. exact Hin. }
  assert (Hpk' : pk_unique t').
  { unfold pk_unique, t'. rewrite map_map.
    rewrite (map_ext (fun r => id (f r)) id); [exact Hpk|].
    intros r. unfold f. destruct (has_id (id row) r); reflexivity. }
  split; [exact Hin'|]. split; [exact Hpk'|].
  exact (pk_unique_filter t' (apply_update updates row) Hpk' Hin').
Qed.

Lemma dump_description_set (updates : ItemUpdate) (v : option string) :
  update_description updates = Some v ->
  is_empty (model_dump_exclude_unset updates) = false.
Proof.
  unfold model_dump_exclude_unset. intros ->.
  destruct (update_name updates); reflexivity.
Qed.

(** The update of a stored row that the store accepts: the row with the set
    fields replaced is returned and committed. *)
Lemma update_item_writes (row : Item) (updates : ItemUpdate) (s : AsyncSession) :
  in_int64 (id row) = true ->
  new s = [] -> pk_unique (transaction s) -> In row (transaction s) ->
  is_empty (model_dump_exclude_unset updates) = false ->
  update_name updates <> Some None ->
  (forall n other, update_name updates = Some (Some n) ->
     In other (transaction s) -> name other = n -> id other = id row) ->
  exists t' : Table,
    In (apply_update updates row) t' /\ pk_unique t' /\
    update_item (id row) updates s =
      (Return (Some (apply_update updates row)),
       Usable {| database := t'; transaction := t'; new := [];
                 calls := calls s ++
                   [UPDATE (id row) (model_dump_exclude_unset updates); COMMIT] |}).
Proof.
  intros Hfit Hnew Hpk Hin Hset Hnull Hfree.
  set (i := id row) in *. set (values := model_dump_exclude_unset updates) in *.
  set (t' := map (fun r => if has_id i r then apply_update updates r else r)
                 (transaction s)).
  destruct (updated_table updates (transaction s) row Hpk Hin) as [Hin' [Hpk' Hsel]].
  fold i in Hsel, Hpk', Hin'. fold t' in Hsel, Hpk', Hin'.
  assert (C : name_collides i values t' = false).
  { unfold name_collides. destruct (get "name" values) as [n|] eqn:G; auto.
    apply get_name_dump in G.
    rewrite (filter_through Item (has_name n) (has_id i) t'), Hsel.
    - simpl. destruct (has_name n (apply_update updates row));
        simpl; rewrite andb_false_r; reflexivity.
    - intros x Hx Hn. apply in_map_iff in Hx. destruct Hx as [r [E Hr]].
      destruct (has_id i r) eqn:I.
      + subst x. exact I.
      + subst x. apply has_id_true. apply (Hfree n r G Hr).
        apply String.eqb_eq. exact Hn. }
  assert (U : sql_update i values (transaction s) =
              Some (t', [apply_update updates row])).
  { unfold sql_update, values. rewrite (update_rows_apply i updates _ Hnull).
    fold t' values. rewrite C, Hsel. reflexivity. }
  exists t'. split; [exact Hin'|]. split; [exact Hpk'|].
  unfold update_item. fold values. rewrite Hset.
  unfold bind, execute, binds. simpl. fold i. rewrite Hfit. simpl.
  rewrite U. simpl. rewrite Hnew. simpl.
  rewrite <- app_assoc. reflexivity.
Qed.

(** ** Null against absent in the update payload *)

(** C5, as the code has it: [exclude_unset] drops only the fields the
    payload left out.  Such a field keeps its stored value in every row.  A
    description that the payload supplies is not treated as absent, whatever
    its value, null included: on a stored row whose id fits the driver, if
    the payload's name, when it supplies one, is neither null nor borne by
    a row with another id, the update is written and committed and the
    stored row then carries the supplied description. *)
Theorem explicit_null_is_written (row : Item) (s : AsyncSession)
    (Hnew : new s = []) (Hpk : pk_unique (transaction s))
    (Hin : In row (transaction s)) (Hfit : in_int64 (id row) = true) :
  (forall updates,
     Forall2 (unsupplied_kept (id row) updates)
       (transaction s) (transaction (snd (update_item (id row) updates s)))) /\
  (forall (updates : ItemUpdate) (v : option string),
     update_description updates = Some v ->
     update_name updates <> Some None ->
     (forall n other, update_name updates = Some (Some n) ->
        In other (transaction s) -> name other = n -> id other = id row) ->
     let row' := apply_update updates row in
     description row' = v /\
     fst (update_item (id row) updates s) = Return (Some row') /\
     In row' (database (snd (update_item (id row) updates s))) /\
     fst (get_item (id row) (snd (update_item (id row) updates s))) =
       Return (Some row') /\
     issued (update_item (id row) updates) s =
       [UPDATE (id row) (model_dump_exclude_unset updates); COMMIT]).
Proof.
  split.
  - intros updates.
    destruct (update_item_frame (id row) updates s Hnew) as [F _].
    revert F. apply Forall2_impl. apply row_frame_unsupplied.
  - intros updates v Hd Hnull Hfree row'.
    destruct (update_item_writes row updates s Hfit Hnew Hpk Hin
                (dump_description_set updates v Hd) Hnull Hfree)
      as [t' [I [P E]]].
    split; [unfold row', apply_update; simpl; rewrite Hd; reflexivity|].
    rewrite (issued_after _ _ _ _ _ _ E eq_refl), E. cbn [fst snd].
    rewrite get_item_eq, Hfit. simpl.
    change (id row) with (id row').
    rewrite (pk_unique_find t' row' P I). repeat split. exact I.
Qed.

Lemma explicit_null_is_written_witness :
  new (open_session [laptop]) = [] /\
  pk_unique (transaction (open_session [laptop])) /\
  In laptop (transaction (open_session [laptop])) /\
  in_int64 (id laptop) = true /\
  fst (update_item 1 {| update_name := None; update_description := Some None |}
         (open_session [laptop])) =
    Return (Some {| id := 1; name := "Laptop"; description := None |}).
Proof.
  assert (P : pk_unique (transaction (open_session [laptop]))).
  { unfold pk_unique. simpl. constructor; [simpl; tauto | constructor]. }
  assert (M : In laptop (transaction (open_session [laptop]))) by (simpl; auto).
  split; [reflexivity|]. split; [exact P|]. split; [exact M|].
  split; [reflexivity|].
  destruct (explicit_null_is_written laptop (open_session [laptop])
              eq_refl P M eq_refl) as [_ W].
  assert (N : update_name {| update_name := None;
                             update_description := Some None |} <> Some None)
    by discriminate.
  assert (F : forall n other,
             update_name {| update_name := None;
                            update_description := Some None |} = Some (Some n) ->
             In other (transaction (open_session [laptop])) ->
             name other = n -> id other = id laptop).
  { intros n other H. discriminate H. }
  exact (proj1 (proj2 (W {| update_name := None; update_description := Some None |}
                         None eq_refl N F))).
Defined.

(** C5, as the claim words it, fails: on the table holding [laptop], a
    payload whose description is null issues an [UPDATE] and a [COMMIT] and
    leaves the stored description null, while the payload without the field
    issues a [SELECT] and leaves the row as it was. *)
Lemma explicit_null_differs_from_absent :
  let s := open_session [laptop] in
  let null_description :=
    {| update_name := None; update_description := Some None |} in
  fst (get_item 1 (snd (update_item 1 null_description s))) =
    Return (Some {| id := 1; name := "Laptop"; description := None |}) /\
  fst (get_item 1 (snd (update_item 1 no_fields s))) = Return (Some laptop) /\
  issued (update_item 1 null_description) s =
    [UPDATE 1 [("description", None)]; COMMIT] /\
  issued (update_item 1 no_fields) s = [SELECT (Some 1)] /\
  snd (PATCH_item 1 null_description [laptop]) <> snd (PATCH_item 1 no_fields [laptop]).
Proof.
  repeat split. discriminate.
Qed.

Lemma update_rows_null_name (i : Z) (values : Dict) (t : Table) :
  contains "name" values = true -> get "name" values = None ->
  present i t = true ->
  update_rows i values t = None.
Proof.
  intros C G. unfold present. induction t as [|r t IH]; simpl; [discriminate|].
  destruct (has_id i r) eqn:E; simpl.
  - intros _. destruct (update_rows i values t); auto.
    unfold set_values. rewrite C, G. reflexivity.
  - intros P. rewrite (IH P). reflexivity.
Qed.


(** A [name] supplied as null reaches the store too, which refuses it: the
    column is [NOT NULL].  (Were the id one the driver cannot bind, the
    driver's refusal would come first.) *)
Lemma update_item_null_name (i : Z) (d : option (option string)) (s : AsyncSession) :
  present i (transaction s) = true ->
  let updates := {| update_name := Some None; update_description := d |} in
  fst (update_item i updates s) =
    Raise (if in_int64 i then IntegrityError else OverflowError) /\
  store (snd (update_item i updates s)) = store s.
Proof.
  intros P updates. unfold update_item, bind, execute, binds, sql_update. simpl.
  destruct (in_int64 i); simpl; [|auto].
  rewrite (update_rows_null_name i _ (transaction s)); auto.
Qed.

Lemma update_item_null_name_witness :
  present 1 (transaction (open_session [laptop])) = true /\
  fst (update_item 1 {| update_name := Some None; update_description := None |}
         (open_session [laptop])) = Raise IntegrityError.
Proof.
  split; [reflexivity|].
  exact (proj1 (update_item_null_name 1 None (open_session [laptop]) eq_refl)).
Defined.

(** An update that writes, read back.  With nothing pending and the primary
    key in force, let the payload set some field of a stored row, no null
    name, and no name that a row with another id bears.  Then [update_item]
    returns the row with the set fields replaced and the others kept,
    commits it, and a following [get_item] returns the same row.  (Were the
    id one the driver cannot bind, the call would raise [OverflowError] and
    write nothing.) *)
Theorem update_item_then_get_item (row : Item) (updates : ItemUpdate)
    (s : AsyncSession)
    (Hnew : new s = []) (Hpk : pk_unique (transaction s))
    (Hin : In row (transaction s))
    (Hset : is_empty (model_dump_exclude_unset updates) = false)
    (Hnull : update_name updates <> Some None)
    (Hfree : forall n other, update_name updates = Some (Some n) ->
               In other (transaction s) -> name other = n -> id other = id row) :
  let s' := snd (update_item (id row) updates s) in
  if in_int64 (id row) then
    fst (update_item (id row) updates s) = Return (Some (apply_update updates row)) /\
    fst (get_item (id row) s') = Return (Some (apply_update updates row)) /\
    In (apply_update updates row) (database s') /\
    issued (update_item (id row) updates) s =
      [UPDATE (id row) (model_dump_exclude_unset updates); COMMIT]
  else
    fst (update_item (id row) updates s) = Raise OverflowError /\
    store s' = store s.
Proof.
  intros s'. unfold s'. destruct (in_int64 (id row)) eqn:Hfit.
  2:{ rewrite (update_item_overflow (id row) updates s Hfit Hset).
      split; reflexivity. }
  destruct (update_item_writes row updates s Hfit Hnew Hpk Hin Hset Hnull Hfree)
    as [t' [I [P E]]].
  rewrite (issued_after _ _ _ _ _ _ E eq_refl), E. cbn [fst snd].
  rewrite get_item_eq, Hfit. simpl.
  change (id row) with (id (apply_update updates row)).
  rewrite (pk_unique_find t' _ P I). repeat split. exact I.
Qed.

Lemma update_item_then_get_item_witness :
  let updates := {| update_name := Some (Some "Notebook");
                    update_description := None |} in
  fst (get_item 1 (snd (update_item 1 updates (open_session [laptop])))) =
    Return (Some {| id := 1; name := "Notebook";
                    description := Some "Powerful computing device" |}).
Proof.
  intros updates.
  assert (P : pk_unique (transaction (open_session [laptop]))).
  { unfold pk_unique. simpl. constructor; [simpl; tauto | constructor]. }
  assert (M : In laptop (transaction (open_session [laptop]))) by (simpl; auto).
  assert (N : update_name updates <> Some None) by discriminate.
  assert (F : forall n other, update_name updates = Some (Some n) ->
                In other (transaction (open_session [laptop])) ->
                name other = n -> id other = id laptop).
  { intros n other _ [<- | []] _. reflexivity. }
  exact (proj1 (proj2 (update_item_then_get_item laptop updates
                         (open_session [laptop]) eq_refl P M eq_refl N F))).
Defined.

(** ** The handlers *)

Lemma execute_raises (stmt : Stmt) (x x' : Session) (e : Exn) :
  execute stmt x = (Raise e, x') -> from_store e.
Proof.
  unfold execute. destruct x as [s | s].
  - destruct (negb (binds stmt)).
    + intros H. inversion H. exact I.
    + destruct stmt as [w | i values | i].
      * discriminate.
      * destruct (sql_update i values (transaction s)) as [[t' returned]|];
          intros H; inversion H. exact I.
      * destruct (sql_delete i (transaction s)). discriminate.
  - intros H. inversion H. exact I.
Qed.

Lemma commit_raises (x x' : Session) (e : Exn) :
  commit x = (Raise e, x') -> from_store e.
Proof.
  unfold commit. destruct x as [s | s].
  - destruct (flush (new s) (transaction s)) as [[[t pks]|] trace];
      intros H; inversion H; exact I.
  - intros H. inversion H. exact I.
Qed.

Lemma get_item_raises (i : Z) (x x' : Session) (e : Exn) :
  get_item i x = (Raise e, x') -> from_store e.
Proof.
  unfold get_item, bind.
  destruct (execute (Select (Some i)) x) as [[r | e'] x1] eqn:E.
  - discriminate.
  - intros H. inversion H; subst. exact (execute_raises _ _ _ _ E).
Qed.

Lemma update_item_raises (i : Z) (updates : ItemUpdate) (x x' : Session)
    (e : Exn) :
  update_item i updates x = (Raise e, x') -> from_store e.
Proof.
  unfold update_item.
  destruct (is_empty (model_dump_exclude_unset updates)).
  - apply get_item_raises.
  - unfold bind.
    destruct (execute (Update i _) x) as [[r | e'] x1] eqn:E.
    + unfold scalar_one_or_none.
      destruct (rows r) as [|r1 [|r2 rest]]; simpl.
      * discriminate.
      * destruct (commit x1) as [[pks | e'] x2] eqn:C.
        -- discriminate.
        -- intros H. inversion H; subst. exact (commit_raises _ _ _ C).
      * intros H. inversion H. exact I.
    + intros H. inversion H; subst. exact (execute_raises _ _ _ _ E).
Qed.

Lemma delete_item_raises (i : Z) (x x' : Session) (e : Exn) :
  delete_item i x = (Raise e, x') -> from_store e.
Proof.
  unfold delete_item, bind.
  destruct (execute (Delete i) x) as [[r | e'] x1] eqn:E.
  - destruct (rowcount r =? 0); [discriminate|].
    destruct (commit x1) as [[pks | e'] x2] eqn:C.
    + discriminate.
    + intros H. inversion H; subst. exact (commit_raises _ _ _ C).
  - intros H. inversion H; subst. exact (execute_raises _ _ _ _ E).
Qed.

Lemma on_raise_from_store (e : Exn) :
  from_store e ->
  on_raise e = {| status := 500; body := Text "Internal Server Error" |}.
Proof.
  destruct e; simpl; intros H; [reflexivity .. | contradiction].
Qed.

(** The response to a handler that looks an item up and raises the 404
    when there is none. *)
Lemma item_or_404 (m : M (option Item)) (x : Session) :
  (forall e x', m x = (Raise e, x') -> from_store e) ->
  let r := fst (m x) in
  let resp :=
    respond HTTP_200_OK ItemResponse
      (fst ((item <- m ;;
             match item with
             | None => raise (HTTPException HTTP_404_NOT_FOUND "Item not found")
             | Some item => ret item
             end) x)) in
  (status resp = 404 <-> r = Return None) /\
  (r = Return None -> resp = not_found) /\
  (forall item, r = Return (Some item) ->
     resp = {| status := 200; body := JsonBody (ItemResponse item) |}).
Proof.
  intros Hraise. unfold bind.
  destruct (m x) as [[[item|]|e] x'] eqn:E; simpl.
  - repeat split; try discriminate. intros item' H. inversion H. reflexivity.
  - repeat split; try discriminate.
  - rewrite (on_raise_from_store e (Hraise e x' eq_refl)). simpl.
    repeat split; discriminate.
Qed.

(** C6: for the lookup, update and delete handlers, the response has
    status 404 exactly when the repository call returned [None] (or
    [False] for delete), and it is then [{"detail": "Item not found"}];
    when the repository returned an item the response is 200 with that
    item, and when delete returned [True] it is 204 with an empty body. *)
Theorem handlers_answer_404_iff_absent (item_id : Z) (item_data : ItemUpdate)
    (s : AsyncSession) :
  (let r := fst (get_item item_id s) in
   let resp := respond HTTP_200_OK ItemResponse
                 (fst (ItemView.get_single_item item_id s)) in
   (status resp = 404 <-> r = Return None) /\
   (r = Return None -> resp = not_found) /\
   (forall item, r = Return (Some item) ->
      resp = {| status := 200; body := JsonBody (ItemResponse item) |})) /\
  (let r := fst (update_item item_id item_data s) in
   let resp := respond HTTP_200_OK ItemResponse
                 (fst (ItemView.update_item item_data item_id s)) in
   (status resp = 404 <-> r = Return None) /\
   (r = Return None -> resp = not_found) /\
   (forall item, r = Return (Some item) ->
      resp = {| status := 200; body := JsonBody (ItemResponse item) |})) /\
  (let r := fst (delete_item item_id s) in
   let resp := respond_direct (fst (ItemView.delete_item item_id s)) in
   (status resp = 404 <-> r = Return false) /\
   (r = Return false -> resp = not_found) /\
   (r = Return true -> resp = {| status := 204; body := Empty |})).
Proof.
  split; [|split].
  - apply (item_or_404 (get_item item_id) s).
    intros e x'. apply get_item_raises.
  - apply (item_or_404 (update_item item_id item_data) s).
    intros e x'. apply update_item_raises.
  - unfold ItemView.delete_item, bind.
    destruct (delete_item item_id s) as [[[|]|e] x'] eqn:E; simpl.
    + repeat split; discriminate.
    + repeat split; discriminate.
    + rewrite (on_raise_from_store e (delete_item_raises item_id s x' e E)). simpl.
      repeat split; discriminate.
Qed.

(** ** Sessions the application reaches *)

Lemma pk_unique_filter_rows (f : Item -> bool) (t : Table) :
  pk_unique t -> pk_unique (filter f t).
Proof.
  unfold pk_unique. induction t as [|r t IH]; simpl; intros H; auto.
  inversion H as [|x l Hnotin Hnd]; subst.
  destruct (f r); simpl; auto.
  constructor; auto. intros Hin. apply Hnotin.
  apply in_map_iff in Hin. destruct Hin as [r' [E Hin]].
  apply filter_In in Hin. rewrite <- E. apply in_map. tauto.
Qed.

Lemma pk_unique_created (item_data : ItemCreate) (t : Table) :
  pk_unique t -> pk_unique (t ++ [created item_data t]).
Proof.
  unfold pk_unique. intros H.
  pose proof (next_rowid_fresh t) as F.
  assert (N : ~ In (next_rowid t) (map id t)).
  { rewrite <- present_map_id, F. discriminate. }
  rewrite map_app. simpl. revert N. generalize (next_rowid t) as k.
  induction H as [|x l Hx Hl IH]; simpl; intros k N.
  - constructor; [tauto | constructor].
  - constructor.
    + rewrite in_app_iff. simpl. intros [Hin | [E | []]]; [tauto|].
      apply N. left. symmetry. exact E.
    + apply IH. tauto.
Qed.

(** Idle sessions over a table that obeys the primary key are what the
    application works on: a fresh session is idle, and from such a session
    every service call leaves a database that obeys the primary key. *)
Lemma service_calls_keep_primary_key (s : AsyncSession) :
  idle s -> pk_unique (transaction s) ->
  (forall i, pk_unique (database (snd (get_item i s)))) /\
  pk_unique (database (snd (get_all_items s))) /\
  (forall d, pk_unique (database (snd (create_item d s)))) /\
  (forall i u, pk_unique (database (snd (update_item i u s)))) /\
  (forall i, pk_unique (database (snd (delete_item i s)))).
Proof.
  intros [Htx Hnew] Hpk.
  assert (Hdb : pk_unique (database s)) by (rewrite <- Htx; exact Hpk).
  split; [|split; [|split; [|split]]].
  - intros i. rewrite get_item_eq. exact Hdb.
  - exact Hdb.
  - intros d.
    destruct (existsb (has_name (create_name d)) (transaction s)) eqn:N.
    + rewrite (create_item_taken_name d s Hnew N). exact Hdb.
    + rewrite (create_item_fresh_name d s Hnew N). simpl.
      apply pk_unique_created. exact Hpk.
  - intros i u. destruct (update_item_frame i u s Hnew) as [F [D | D]].
    + rewrite D. exact Hdb.
    + rewrite D. unfold pk_unique.
      rewrite (table_frame_ids _ _ _ _ F). exact Hpk.
  - intros i. destruct (in_int64 i) eqn:F.
    2:{ rewrite (delete_item_overflow i s F). exact Hdb. }
    destruct (present i (transaction s)) eqn:P.
    + rewrite (delete_item_present i s F Hnew P). simpl.
      apply pk_unique_filter_rows. exact Hpk.
    + rewrite (delete_item_absent i s F P). exact Hdb.
Qed.

Lemma open_session_idle (db : Table) : idle (open_session db).
Proof. split; reflexivity. Qed.

Lemma close_idle (x : Session) : usable_idle (close x).
Proof. eexists. split; [reflexivity | split; reflexivity]. Qed.

(** The scenario of the endpoint tests, request after request on an empty
    database. *)
Example laptop_scenario :
  let post := POST_items {| create_name := "Laptop";
                            create_description := Some "Powerful computing device" |} [] in
  let fetch := GET_item 1 (snd post) in
  let patch := PATCH_item 1 {| update_name := None;
                               update_description := Some (Some "Updated") |}
                 (snd fetch) in
  let delete := DELETE_item 1 (snd patch) in
  let gone := GET_item 1 (snd delete) in
  fst post = {| status := 201; body := JsonBody (ItemResponse laptop) |} /\
  fst fetch = {| status := 200; body := JsonBody (ItemResponse laptop) |} /\
  fst patch =
    {| status := 200;
       body := JsonBody (ItemResponse {| id := 1; name := "Laptop";
                                         description := Some "Updated" |}) |} /\
  fst delete = {| status := 204; body := Empty |} /\
  fst gone = not_found /\
  snd gone = [].
Proof.
  repeat split.
Qed.


(** ** The routes, request by request *)

Lemma find_has_id (i : Z) (t : Table) (item : Item) :
  find (has_id i) t = Some item -> In item t /\ id item = i.
Proof.
  intros H. apply find_some in H. destruct H as [Hin H].
  split; [exact Hin | apply has_id_true; exact H].
Qed.

Lemma find_none_absent (i : Z) (t : Table) :
  find (has_id i) t = None <-> present i t = false.
Proof.
  unfold present. induction t as [|r t IH]; simpl; [tauto|].
  destruct (has_id i r); simpl; [split; discriminate | exact IH].
Qed.

Lemma GET_item_eq (i : Z) (db : Table) :
  GET_item i db =
  (if in_int64 i then
     match find (has_id i) db with
     | Some item => ok item
     | None => not_found
     end
   else server_error, db).
Proof.
  unfold GET_item, get_session, ItemView.get_single_item, bind.
  rewrite get_item_eq. simpl.
  destruct (in_int64 i); [|reflexivity].
  destruct (find (has_id i) db); reflexivity.
Qed.

(** The lookup route never changes the database.  For an id that fits a
    signed 64-bit integer it answers 404 with the fixed detail exactly when
    no row has the id, and otherwise 200 with a stored row that has the id
    asked for; for any other id the driver's [OverflowError] escapes and the
    answer is 500. *)
Theorem GET_item_found_or_404 (item_id : Z) (db : Table) :
  snd (GET_item item_id db) = db /\
  (in_int64 item_id = true ->
   (fst (GET_item item_id db) = not_found <-> present item_id db = false) /\
   (present item_id db = true ->
    exists item, In item db /\ id item = item_id /\
                 fst (GET_item item_id db) = ok item)) /\
  (in_int64 item_id = false -> fst (GET_item item_id db) = server_error).
Proof.
  rewrite GET_item_eq. simpl. split; [reflexivity|]. split.
  - intros F. rewrite F.
    destruct (find (has_id item_id) db) as [item|] eqn:Fd.
    + destruct (find_has_id _ _ _ Fd) as [Hin Hid].
      assert (P : present item_id db = true).
      { apply present_In. exists item. auto. }
      split.
      * rewrite P. split; discriminate.
      * intros _. exists item. auto.
    + apply find_none_absent in Fd. rewrite Fd. split; [tauto | discriminate].
  - intros F. rewrite F. reflexivity.
Qed.

Lemma POST_items_taken (d : ItemCreate) (db : Table) :
  existsb (has_name (create_name d)) db = true ->
  POST_items d db = (server_error, db).
Proof.
  intros H. unfold POST_items, get_session, ItemView.create_item, bind.
  rewrite (create_item_taken_name d (open_session db) eq_refl H). reflexivity.
Qed.

Lemma POST_items_fresh (d : ItemCreate) (db : Table) :
  existsb (has_name (create_name d)) db = false ->
  POST_items d db = (created_response (created d db), db ++ [created d db]).
Proof.
  intros H. unfold POST_items, get_session, ItemView.create_item, bind.
  rewrite (create_item_fresh_name d (open_session db) eq_refl H). reflexivity.
Qed.



Lemma DELETE_item_eq (i : Z) (db : Table) :
  DELETE_item i db =
  if in_int64 i then
    if present i db
    then (no_content, filter (fun row => negb (has_id i row)) db)
    else (not_found, db)
  else (server_error, db).
Proof.
  unfold DELETE_item, get_session, ItemView.delete_item, bind.
  destruct (in_int64 i) eqn:F.
  - destruct (present i db) eqn:P.
    + rewrite (delete_item_present i (open_session db) F eq_refl P). reflexivity.
    + rewrite (delete_item_absent i (open_session db) F P). reflexivity.
  - rewrite (delete_item_overflow i (open_session db) F). reflexivity.
Qed.

Lemma absent_after_delete (i : Z) (t : Table) :
  present i (filter (fun row => negb (has_id i row)) t) = false.
Proof.
  apply find_none_absent, find_after_delete.
Qed.

(** The delete route, for an id that fits a signed 64-bit integer, answers
    204 with an empty body and removes the rows with the id when there is
    one, and 404 with the database untouched when there is none; whatever
    the first answer, the same request sent again is answered 404 and
    changes nothing.  For any other id the answer is 500 and the database is
    untouched. *)
Theorem DELETE_item_twice (item_id : Z) (db : Table) :
  (in_int64 item_id = true ->
   DELETE_item item_id db =
     (if present item_id db
      then (no_content, filter (fun row => negb (has_id item_id row)) db)
      else (not_found, db)) /\
   DELETE_item item_id (snd (DELETE_item item_id db)) =
     (not_found, snd (DELETE_item item_id db)) /\
   fst (GET_item item_id (snd (DELETE_item item_id db))) = not_found) /\
  (in_int64 item_id = false -> DELETE_item item_id db = (server_error, db)).
Proof.
  split; intros F.
  - assert (E : DELETE_item item_id db =
                (if present item_id db
                 then (no_content, filter (fun row => negb (has_id item_id row)) db)
                 else (not_found, db))).
    { rewrite DELETE_item_eq, F. reflexivity. }
    split; [exact E|].
    assert (A : present item_id (snd (DELETE_item item_id db)) = false).
    { rewrite E. destruct (present item_id db) eqn:P; simpl.
      - apply absent_after_delete.
      - exact P. }
    split.
    + rewrite (DELETE_item_eq item_id (snd _)), F, A. reflexivity.
    + rewrite GET_item_eq, F. apply find_none_absent in A. rewrite A. reflexivity.
  - rewrite DELETE_item_eq, F. reflexivity.
Qed.

Lemma view_update_item_result (i : Z) (u : ItemUpdate) (x : Session) :
  fst (ItemView.update_item u i x) =
  match fst (update_item i u x) with
  | Return (Some item) => Return item
  | Return None => Raise (HTTPException HTTP_404_NOT_FOUND "Item not found")
  | Raise e => Raise e
  end.
Proof.
  unfold ItemView.update_item, bind.
  destruct (update_item i u x) as [[[item|]|e] x']; reflexivity.
Qed.

Lemma PATCH_item_eq (i : Z) (u : ItemUpdate) (db : Table) :
  PATCH_item i u db =
  (respond HTTP_200_OK ItemResponse (fst (ItemView.update_item u i (open_session db))),
   database (snd (update_item i u (open_session db)))).
Proof.
  unfold PATCH_item, get_session. rewrite <- view_update_item_state.
  destruct (ItemView.update_item u i (open_session db)); reflexivity.
Qed.

(** No route changes the database when it answers with a client or server
    error: the two reads never change it, and a create, update or delete
    answered with a status from 400 up leaves it as it was. *)
Theorem error_responses_change_nothing (db : Table) :
  snd (GET_items db) = db /\
  (forall item_id, snd (GET_item item_id db) = db) /\
  (forall item_data,
     400 <= status (fst (POST_items item_data db)) ->
     snd (POST_items item_data db) = db) /\
  (forall item_id item_data,
     400 <= status (fst (PATCH_item item_id item_data db)) ->
     snd (PATCH_item item_id item_data db) = db) /\
  (forall item_id,
     400 <= status (fst (DELETE_item item_id db)) ->
     snd (DELETE_item item_id db) = db).
Proof.
  split; [reflexivity|]. split; [intros i; rewrite GET_item_eq; reflexivity|].
  split; [|split].
  - intros d. destruct (existsb (has_name (create_name d)) db) eqn:N.
    + rewrite (POST_items_taken d db N). reflexivity.
    + rewrite (POST_items_fresh d db N). simpl. lia.
  - intros i u. rewrite PATCH_item_eq, view_update_item_result. simpl.
    destruct (is_empty (model_dump_exclude_unset u)) eqn:Hne.
    + rewrite (update_item_no_data i u _ Hne), get_item_eq. reflexivity.
    + destruct (in_int64 i) eqn:F.
      2:{ rewrite (update_item_overflow i u (open_session db) F Hne). reflexivity. }
      destruct (update_item_cases i u (open_session db) F eq_refl Hne)
        as [[_ E] | [[t' [_ E]] | [[t' [row [_ E]]] | [t' [r1 [r2 [rest [_ E]]]]]]]];
        rewrite E; simpl; try reflexivity. unfold HTTP_200_OK. lia.
  - intros i. rewrite DELETE_item_eq.
    destruct (in_int64 i); [|reflexivity].
    destruct (present i db); simpl; [lia | reflexivity].
Qed.

(** A PATCH whose payload sets no field is the lookup: same response, same
    database, for every id and every database. *)
Theorem PATCH_item_no_fields_is_GET_item (item_id : Z) (db : Table) :
  PATCH_item item_id no_fields db = GET_item item_id db.
Proof.
  rewrite PATCH_item_eq, view_update_item_result, GET_item_eq.
  rewrite (update_item_no_data item_id no_fields (open_session db) eq_refl).
  rewrite get_item_eq. simpl.
  destruct (in_int64 item_id); [|reflexivity].
  destruct (find (has_id item_id) db); reflexivity.
Qed.

(** ** What a write leaves alone *)

Lemma find_other_after_delete (i j : Z) (t : Table) :
  j <> i ->
  find (has_id j) (filter (fun row => negb (has_id i row)) t) = find (has_id j) t.
Proof.
  intros N. induction t as [|r t IH]; simpl; auto.
  destruct (has_id i r) eqn:I; simpl.
  - destruct (has_id j r) eqn:J; [|exact IH].
    apply has_id_true in I. apply has_id_true in J. congruence.
  - rewrite IH. reflexivity.
Qed.

(** After a delete the session is usable, and its table is the one before
    without the rows of the id, or the one before when the driver refused
    the id. *)
Lemma delete_item_after (i : Z) (s : AsyncSession) :
  new s = [] ->
  exists s' : AsyncSession,
    snd (delete_item i s) = Usable s' /\
    transaction s' =
      if in_int64 i then filter (fun row => negb (has_id i row)) (transaction s)
      else transaction s.
Proof.
  intros Hnew. destruct (in_int64 i) eqn:F.
  - destruct (present i (transaction s)) eqn:P.
    + rewrite (delete_item_present i s F Hnew P). eexists. split; reflexivity.
    + rewrite (delete_item_absent i s F P). eexists. split; [reflexivity|].
      simpl. symmetry. apply absent_filter_others. exact P.
  - rewrite (delete_item_overflow i s F). eexists. split; reflexivity.
Qed.

(** A delete touches the rows with its id only: with nothing pending, the
    table afterwards is the one before without those rows, kept in order
    (the one before, when the driver refuses the id), and the lookup of any
    other id gives what it gave before. *)
Theorem delete_item_leaves_others (item_id other_id : Z) (s : AsyncSession)
    (Hnew : new s = []) (Hother : other_id <> item_id) :
  fst (get_all_items (snd (delete_item item_id s))) =
    Return (if in_int64 item_id
            then filter (fun row => negb (has_id item_id row)) (transaction s)
            else transaction s) /\
  fst (get_item other_id (snd (delete_item item_id s))) =
    fst (get_item other_id s).
Proof.
  destruct (delete_item_after item_id s Hnew) as [s' [-> T]].
  rewrite get_all_items_eq, !get_item_eq. simpl. rewrite T.
  split; [reflexivity|].
  destruct (in_int64 item_id); [|reflexivity].
  rewrite (find_other_after_delete item_id other_id _ Hother). reflexivity.
Qed.

Lemma delete_item_leaves_others_witness :
  new (open_session [laptop; mouse]) = [] /\ 1 <> 2 /\
  fst (get_all_items (snd (delete_item 2 (open_session [laptop; mouse])))) =
    Return [laptop] /\
  fst (get_item 1 (snd (delete_item 2 (open_session [laptop; mouse])))) =
    fst (get_item 1 (open_session [laptop; mouse])).
Proof.
  assert (N : 1 <> 2) by discriminate.
  split; [reflexivity|]. split; [exact N|].
  exact (delete_item_leaves_others 2 1 (open_session [laptop; mouse]) eq_refl N).
Defined.




(** ** Invariants of the service *)

(** Every service call either commits what it wrote or wrote nothing.  From
    an idle session over a table that obeys the primary key, a read, an
    update or a delete leaves the session usable and idle, whatever it
    returned or raised; so does a create that returns.  A create that raises
    leaves the session deactivated, with the database as it was and nothing
    uncommitted or pending; closing it gives a usable idle session again. *)
Theorem service_calls_end_idle (s : AsyncSession)
    (Hidle : idle s) (Hpk : pk_unique (transaction s)) :
  (forall item_id, usable_idle (snd (get_item item_id s))) /\
  usable_idle (snd (get_all_items s)) /\
  (forall item_id updates, usable_idle (snd (update_item item_id updates s))) /\
  (forall item_id, usable_idle (snd (delete_item item_id s))) /\
  (forall item_data,
     (forall item, fst (create_item item_data s) = Return item ->
        usable_idle (snd (create_item item_data s))) /\
     (forall e, fst (create_item item_data s) = Raise e ->
        exists d : AsyncSession,
          snd (create_item item_data s) = Deactivated d /\
          idle d /\ database d = database s /\
          usable_idle (close (snd (create_item item_data s))))).
Proof.
  pose proof Hidle as [Htx Hnew].
  assert (Hissue : forall q, usable_idle (Usable (issue q s))).
  { intros q. exists (issue q s). split; [reflexivity | exact Hidle]. }
  split; [|split; [|split; [|split]]].
  - intros i. rewrite get_item_eq. apply Hissue.
  - apply Hissue.
  - intros i u.
    destruct (is_empty (model_dump_exclude_unset u)) eqn:Hne.
    + rewrite (update_item_no_data i u s Hne), get_item_eq. apply Hissue.
    + destruct (in_int64 i) eqn:F.
      2:{ rewrite (update_item_overflow i u s F Hne). apply Hissue. }
      destruct (update_item_cases i u s F Hnew Hne)
        as [[_ E] | [[t' [U E]] | [[t' [row [U E]]] | [t' [r1 [r2 [rest [U E]]]]]]]];
        rewrite E; cbn [snd].
      * apply Hissue.
      * apply sql_update_frame in U. destruct U as [Fr R].
        symmetry in R. apply filter_nil_absent in R.
        rewrite (table_frame_present _ _ _ _ Fr) in R.
        rewrite (table_frame_absent _ _ _ _ Fr R).
        eexists. split; [reflexivity | exact Hidle].
      * eexists. split; [reflexivity | split; reflexivity].
      * exfalso. apply sql_update_frame in U. destruct U as [Fr R].
        symmetry in R. revert R. apply pk_unique_one_match.
        unfold pk_unique. rewrite (table_frame_ids _ _ _ _ Fr). exact Hpk.
  - intros i. destruct (in_int64 i) eqn:F.
    2:{ rewrite (delete_item_overflow i s F). apply Hissue. }
    destruct (present i (transaction s)) eqn:P.
    + rewrite (delete_item_present i s F Hnew P).
      eexists. split; [reflexivity | split; reflexivity].
    + rewrite (delete_item_absent i s F P). apply Hissue.
  - intros d.
    destruct (existsb (has_name (create_name d)) (transaction s)) eqn:N.
    + rewrite (create_item_taken_name d s Hnew N). cbn [fst snd]. split.
      * intros item H. discriminate H.
      * intros e _. eexists. split; [reflexivity|].
        split; [split; reflexivity|]. split; [reflexivity | apply close_idle].
    + rewrite (create_item_fresh_name d s Hnew N). cbn [fst snd]. split.
      * intros item _. eexists. split; [reflexivity | split; reflexivity].
      * intros e H. discriminate H.
Qed.

Lemma service_calls_end_idle_witness :
  idle (open_session [laptop]) /\
  pk_unique (transaction (open_session [laptop])) /\
  usable_idle (snd (update_item 1 {| update_name := Some (Some "Notebook");
                                     update_description := None |}
                      (open_session [laptop]))).
Proof.
  assert (I : idle (open_session [laptop])) by (split; reflexivity).
  assert (P : pk_unique (transaction (open_session [laptop]))).
  { unfold pk_unique. simpl. constructor; [simpl; tauto | constructor]. }
  split; [exact I|]. split; [exact P|].
  destruct (service_calls_end_idle (open_session [laptop]) I P)
    as [_ [_ [U _]]].
  apply U.
Defined.

Lemma service_calls_keep_primary_key_witness :
  idle (open_session [laptop]) /\
  pk_unique (transaction (open_session [laptop])) /\
  pk_unique (database (snd (create_item {| create_name := "Mouse";
                                           create_description := None |}
                              (open_session [laptop])))).
Proof.
  assert (I : idle (open_session [laptop])) by (split; reflexivity).
  assert (P : pk_unique (transaction (open_session [laptop]))).
  { unfold pk_unique. simpl. constructor; [simpl; tauto | constructor]. }
  split; [exact I|]. split; [exact P|].
  destruct (service_calls_keep_primary_key (open_session [laptop]) I P)
    as [_ [_ [C _]]].
  apply C.
Defined.

(** *** Names stay unique *)

Lemma count_names (n : string) (t : Table) :
  count_occ string_dec (map name t) n = List.length (filter (has_name n) t).
Proof.
  induction t as [|r t IH]; simpl; auto.
  unfold has_name at 1.
  destruct (string_dec (name r) n) as [E | E].
  - apply String.eqb_eq in E. rewrite E. simpl. f_equal. exact IH.
  - apply String.eqb_neq in E. rewrite E. exact IH.
Qed.

Lemma get_contains (key : string) (d : Dict) (v : string) :
  get key d = Some v -> contains key d = true.
Proof.
  unfold get, contains. induction d as [|[k w] d IH]; simpl; [discriminate|].
  destruct (String.eqb k key); simpl; auto.
Qed.

(** With [name] assigned the value [n], a row keeps its name or takes [n]. *)
Lemma update_rows_names (i : Z) (values : Dict) (n : string) (t t' : Table) :
  get "name" values = Some n ->
  update_rows i values t = Some t' ->
  Forall2 (fun r r' => name r' = name r \/ name r' = n) t t'.
Proof.
  intros G. revert t'. induction t as [|r t IH]; simpl; intros t' H.
  - inversion H. constructor.
  - destruct (update_rows i values t) as [rest'|]; [|discriminate].
    destruct (has_id i r).
    + destruct (set_values values r) as [r'|] eqn:S; [|discriminate].
      inversion H; subst. constructor; [|apply IH; reflexivity].
      right. revert S. unfold set_values.
      rewrite (get_contains "name" values n G), G.
      destruct (contains "description" values); intros S; inversion S; reflexivity.
    + inversion H; subst. constructor; [|apply IH; reflexivity]. auto.
Qed.

Lemma count_other_names (n x : string) (t t' : Table) :
  Forall2 (fun r r' => name r' = name r \/ name r' = n) t t' ->
  x <> n ->
  (count_occ string_dec (map name t') x <= count_occ string_dec (map name t) x)%nat.
Proof.
  intros F N. induction F as [|r r' t t' H _ IH]; simpl; auto.
  destruct (string_dec (name r') x) as [E' | E'];
    destruct (string_dec (name r) x) as [E | E]; try lia.
  exfalso. destruct H as [H | H]; congruence.
Qed.

Lemma table_frame_names (i : Z) (values : Dict) (t t' : Table) :
  Forall2 (row_frame i values) t t' ->
  contains "name" values = false -> map name t' = map name t.
Proof.
  intros F C. induction F as [|r r' t t' [_ [_ [H _]]] _ IH]; simpl; auto.
  rewrite (H C), IH. reflexivity.
Qed.

(** An [UPDATE] that the store accepts keeps the names unique. *)
Lemma sql_update_names (i : Z) (values : Dict) (t t' : Table)
    (returned : list Item) :
  names_unique t ->
  sql_update i values t = Some (t', returned) ->
  names_unique t'.
Proof.
  unfold names_unique. intros Hn U.
  pose proof (sql_update_frame _ _ _ _ _ U) as [F _].
  unfold sql_update in U.
  destruct (update_rows i values t) as [u|] eqn:R; [|discriminate].
  destruct (name_collides i values u) eqn:C; [discriminate|].
  inversion U; subst u; clear U.
  destruct (present i t) eqn:P.
  2:{ rewrite (table_frame_absent _ _ _ _ F P). exact Hn. }
  destruct (contains "name" values) eqn:K.
  2:{ rewrite (table_frame_names _ _ _ _ F K). exact Hn. }
  destruct (get "name" values) as [n|] eqn:G.
  2:{ rewrite (update_rows_null_name i values t K G P) in R. discriminate. }
  unfold name_collides in C. rewrite G, K in C.
  fold (present i t') in C. rewrite (table_frame_present _ _ _ _ F), P in C.
  simpl in C. apply Z.ltb_ge in C.
  apply (NoDup_count_occ string_dec). intros x.
  destruct (string_dec x n) as [-> | N].
  - rewrite count_names. lia.
  - pose proof (count_other_names n x t t' (update_rows_names i values n t t' G R) N).
    pose proof (proj1 (NoDup_count_occ string_dec (map name t)) Hn x). lia.
Qed.

Lemma names_unique_filter_rows (f : Item -> bool) (t : Table) :
  names_unique t -> names_unique (filter f t).
Proof.
  unfold names_unique. induction t as [|r t IH]; simpl; intros H; auto.
  inversion H as [|x l Hnotin Hnd]; subst.
  destruct (f r); simpl; auto.
  constructor; auto. intros Hin. apply Hnotin.
  apply in_map_iff in Hin. destruct Hin as [r' [E Hin]].
  apply filter_In in Hin. rewrite <- E. apply in_map. tauto.
Qed.

Lemma names_unique_created (d : ItemCreate) (t : Table) :
  existsb (has_name (create_name d)) t = false ->
  names_unique t -> names_unique (t ++ [created d t]).
Proof.
  unfold names_unique. intros N H. rewrite map_app. simpl.
  assert (Hn : ~ In (create_name d) (map name t)).
  { intros Hin. apply in_map_iff in Hin. destruct Hin as [r [E Hin]].
    assert (X : existsb (has_name (create_name d)) t = true).
    { apply existsb_exists. exists r. split; auto.
      unfold has_name. apply String.eqb_eq. exact E. }
    congruence. }
  revert Hn. generalize (create_name d) as k. clear N.
  induction H as [|x l Hx Hl IH]; simpl; intros k Hn.
  - constructor; [tauto | constructor].
  - constructor.
    + rewrite in_app_iff. simpl. intros [Hin | [E | []]]; [tauto|].
      apply Hn. left. symmetry. exact E.
    + apply IH. tauto.
Qed.

(** The names of the stored items stay pairwise different: from an idle
    session whose table has unique names, the database after any service
    call has unique names, because a create or an update that would
    duplicate a name is refused and never committed. *)
Theorem service_calls_keep_names_unique (s : AsyncSession)
    (Hidle : idle s) (Hnames : names_unique (transaction s)) :
  (forall item_id, names_unique (database (snd (get_item item_id s)))) /\
  names_unique (database (snd (get_all_items s))) /\
  (forall item_data, names_unique (database (snd (create_item item_data s)))) /\
  (forall item_id updates,
     names_unique (database (snd (update_item item_id updates s)))) /\
  (forall item_id, names_unique (database (snd (delete_item item_id s)))).
Proof.
  destruct Hidle as [Htx Hnew].
  assert (Hdb : names_unique (database s)) by (rewrite <- Htx; exact Hnames).
  split; [|split; [|split; [|split]]].
  - intros i. rewrite get_item_eq. exact Hdb.
  - exact Hdb.
  - intros d.
    destruct (existsb (has_name (create_name d)) (transaction s)) eqn:N.
    + rewrite (create_item_taken_name d s Hnew N). exact Hdb.
    + rewrite (create_item_fresh_name d s Hnew N). simpl.
      apply names_unique_created; assumption.
  - intros i u.
    destruct (is_empty (model_dump_exclude_unset u)) eqn:Hne.
    + rewrite (update_item_no_data i u s Hne), get_item_eq. exact Hdb.
    + destruct (in_int64 i) eqn:F.
      2:{ rewrite (update_item_overflow i u s F Hne). exact Hdb. }
      destruct (update_item_cases i u s F Hnew Hne)
        as [[_ E] | [[t' [U E]] | [[t' [row [U E]]] | [t' [r1 [r2 [rest [U E]]]]]]]];
        rewrite E; simpl; try exact Hdb.
      exact (sql_update_names _ _ _ _ _ Hnames U).
  - intros i. destruct (in_int64 i) eqn:F.
    2:{ rewrite (delete_item_overflow i s F). exact Hdb. }
    destruct (present i (transaction s)) eqn:P.
    + rewrite (delete_item_present i s F Hnew P). simpl.
      apply names_unique_filter_rows. exact Hnames.
    + rewrite (delete_item_absent i s F P). exact Hdb.
Qed.

Lemma service_calls_keep_names_unique_witness :
  idle (open_session [laptop]) /\
  names_unique (transaction (open_session [laptop])) /\
  names_unique (database (snd (update_item 1
                                 {| update_name := Some (Some "Notebook");
                                    update_description := None |}
                                 (open_session [laptop])))).
Proof.
  assert (I : idle (open_session [laptop])) by (split; reflexivity).
  assert (P : names_unique (transaction (open_session [laptop]))).
  { unfold names_unique. simpl. constructor; [simpl; tauto | constructor]. }
  split; [exact I|]. split; [exact P|].
  destruct (service_calls_keep_names_unique (open_session [laptop]) I P)
    as [_ [_ [_ [U _]]]].
  apply U.
Defined.

(** ** Updates the store refuses *)

(** An update that would give a stored row the name of a row with another
    id is refused: [update_item] raises [IntegrityError] at the [UPDATE],
    issues no [COMMIT], leaves the store as it was, and the PATCH handler
    turns the exception into a 500, not a 404.  (Were the id one the driver
    cannot bind, the exception would be the driver's [OverflowError].) *)
Theorem update_item_duplicate_name (row other : Item)
    (description' : option (option string)) (s : AsyncSession)
    (Hrow : In row (transaction s)) (Hother : In other (transaction s))
    (Hdiff : id other <> id row) :
  let updates := {| update_name := Some (Some (name other));
                    update_description := description' |} in
  fst (update_item (id row) updates s) =
    Raise (if in_int64 (id row) then IntegrityError else OverflowError) /\
  store (snd (update_item (id row) updates s)) = store s /\
  issued (update_item (id row) updates) s =
    [UPDATE (id row) (model_dump_exclude_unset updates)] /\
  respond HTTP_200_OK ItemResponse
    (fst (ItemView.update_item updates (id row) s)) = server_error.
Proof.
  intros updates.
  set (i := id row) in *. set (values := model_dump_exclude_unset updates).
  assert (Hne : is_empty values = false) by (destruct description'; reflexivity).
  destruct (in_int64 i) eqn:Hfit.
  2:{ pose proof (update_item_overflow i updates s Hfit Hne) as E. fold values in E.
      rewrite view_update_item_result, (issued_issue _ _ _ _ _ E), E.
      repeat split. }
  set (g := fun r => if has_id i r then apply_update updates r else r).
  assert (N : update_name updates <> Some None) by discriminate.
  assert (R : update_rows i values (transaction s) = Some (map g (transaction s))).
  { apply update_rows_apply. exact N. }
  assert (Hrow' : In (apply_update updates row) (map g (transaction s))).
  { replace (apply_update updates row) with (g row); [apply in_map; exact Hrow|].
    unfold g. replace (has_id i row) with true; auto.
    symmetry. apply has_id_true. reflexivity. }
  assert (Io : has_id i other = false) by (apply has_id_false; exact Hdiff).
  assert (Hother' : In other (map g (transaction s))).
  { replace other with (g other) at 1; [apply in_map; exact Hother|].
    unfold g. rewrite Io. reflexivity. }
  assert (C : name_collides i values (map g (transaction s)) = true).
  { unfold name_collides.
    assert (G : get "name" values = Some (name other)) by reflexivity.
    assert (K : contains "name" values = true) by reflexivity.
    rewrite G, K. simpl.
    assert (P : existsb (has_id i) (map g (transaction s)) = true).
    { apply existsb_exists. exists (apply_update updates row).
      split; [exact Hrow' | apply has_id_true; reflexivity]. }
    rewrite P. simpl. apply Z.ltb_lt.
    rewrite (filter_split_length Item (has_name (name other)) (has_id i)).
    pose proof (filter_inhabited Item
                  (fun x => has_name (name other) x && has_id i x)
                  (map g (transaction s)) (apply_update updates row) Hrow') as H1.
    pose proof (filter_inhabited Item
                  (fun x => has_name (name other) x && negb (has_id i x))
                  (map g (transaction s)) other Hother') as H2.
    assert (Q1 : has_name (name other) (apply_update updates row) &&
                 has_id i (apply_update updates row) = true).
    { apply andb_true_intro. split.
      - unfold has_name. simpl. apply String.eqb_refl.
      - apply has_id_true. reflexivity. }
    assert (Q2 : has_name (name other) other && negb (has_id i other) = true).
    { rewrite Io. unfold has_name. rewrite String.eqb_refl. reflexivity. }
    specialize (H1 Q1). specialize (H2 Q2). lia. }
  assert (E : update_item i updates s =
              (Raise IntegrityError, Usable (issue (UPDATE i values) s))).
  { unfold update_item. fold values.
    rewrite Hne. unfold bind, execute, binds, sql_update. simpl.
    rewrite Hfit. simpl. rewrite R, C. reflexivity. }
  rewrite view_update_item_result, (issued_issue _ _ _ _ _ E), E.
  repeat split.
Qed.

Lemma update_item_duplicate_name_witness :
  In mouse (transaction (open_session [laptop; mouse])) /\
  In laptop (transaction (open_session [laptop; mouse])) /\
  id laptop <> id mouse /\
  fst (update_item 2 {| update_name := Some (Some "Laptop");
                        update_description := None |}
         (open_session [laptop; mouse])) = Raise IntegrityError.
Proof.
  assert (A : In mouse (transaction (open_session [laptop; mouse]))) by (simpl; auto).
  assert (B : In laptop (transaction (open_session [laptop; mouse]))) by (simpl; auto).
  assert (D : id laptop <> id mouse) by discriminate.
  split; [exact A|]. split; [exact B|]. split; [exact D|].
  exact (proj1 (update_item_duplicate_name mouse laptop None
                  (open_session [laptop; mouse]) A B D)).
Defined.

(** ** What the service raises *)

(** From an idle session over a table that obeys the primary key, the only
    exceptions that leave the service are the driver's [OverflowError] and
    the store's [IntegrityError].  A call with an id that does not fit a
    signed 64-bit integer raises [OverflowError].  With an id that fits,
    [get_item] and [delete_item] return and [update_item] returns or raises
    [IntegrityError]; [get_all_items] returns; [create_item] returns or
    raises [IntegrityError]. *)
Theorem service_raises_overflow_or_integrity (s : AsyncSession)
    (Hidle : idle s) (Hpk : pk_unique (transaction s)) :
  (forall item_id updates, in_int64 item_id = false ->
     fst (get_item item_id s) = Raise OverflowError /\
     fst (update_item item_id updates s) = Raise OverflowError /\
     fst (delete_item item_id s) = Raise OverflowError) /\
  (forall item_id updates, in_int64 item_id = true ->
     (exists r, fst (get_item item_id s) = Return r) /\
     (exists r, fst (delete_item item_id s) = Return r) /\
     ((exists r, fst (update_item item_id updates s) = Return r) \/
      fst (update_item item_id updates s) = Raise IntegrityError)) /\
  (exists r, fst (get_all_items s) = Return r) /\
  (forall item_data,
     (exists r, fst (create_item item_data s) = Return r) \/
     fst (create_item item_data s) = Raise IntegrityError).
Proof.
  destruct Hidle as [Htx Hnew].
  split; [|split; [|split]].
  - intros i u F. rewrite get_item_eq, F, (delete_item_overflow i s F).
    repeat split.
    destruct (is_empty (model_dump_exclude_unset u)) eqn:Hne.
    + rewrite (update_item_no_data i u s Hne), get_item_eq, F. reflexivity.
    + rewrite (update_item_overflow i u s F Hne). reflexivity.
  - intros i u F. rewrite get_item_eq, F.
    split; [eexists; reflexivity|]. split.
    + destruct (present i (transaction s)) eqn:P.
      * rewrite (delete_item_present i s F Hnew P). eexists. reflexivity.
      * rewrite (delete_item_absent i s F P). eexists. reflexivity.
    + destruct (is_empty (model_dump_exclude_unset u)) eqn:Hne.
      * left. rewrite (update_item_no_data i u s Hne), get_item_eq, F.
        eexists. reflexivity.
      * destruct (update_item_cases i u s F Hnew Hne)
          as [[_ E] | [[t' [U E]] | [[t' [row [U E]]] | [t' [r1 [r2 [rest [U E]]]]]]]];
          rewrite E; simpl.
        -- right. reflexivity.
        -- left. eexists. reflexivity.
        -- left. eexists. reflexivity.
        -- exfalso. apply sql_update_frame in U. destruct U as [Fr R].
           symmetry in R. revert R. apply pk_unique_one_match.
           unfold pk_unique. rewrite (table_frame_ids _ _ _ _ Fr). exact Hpk.
  - eexists. reflexivity.
  - intros d.
    destruct (existsb (has_name (create_name d)) (transaction s)) eqn:N.
    + right. rewrite (create_item_taken_name d s Hnew N). reflexivity.
    + left. rewrite (create_item_fresh_name d s Hnew N). eexists. reflexivity.
Qed.

Lemma service_raises_overflow_or_integrity_witness :
  idle (open_session [laptop]) /\
  pk_unique (transaction (open_session [laptop])) /\
  (exists r, fst (delete_item 1 (open_session [laptop])) = Return r) /\
  fst (delete_item too_large (open_session [laptop])) = Raise OverflowError.
Proof.
  assert (I : idle (open_session [laptop])) by (split; reflexivity).
  assert (P : pk_unique (transaction (open_session [laptop]))).
  { unfold pk_unique. simpl. constructor; [simpl; tauto | constructor]. }
  split; [exact I|]. split; [exact P|].
  destruct (service_raises_overflow_or_integrity (open_session [laptop]) I P)
    as [O [R _]].
  split.
  - exact (proj1 (proj2 (R 1 no_fields eq_refl))).
  - exact (proj2 (proj2 (O too_large no_fields eq_refl))).
Defined.
